(** * The retry / detection engine of the AI feature-toggle extension

    A shallow embedding of the orchestration code shared by every platform
    handler (the file that defines [tryWithDelays], [AIPlatformHandler],
    [initializeHandlers] and the mutation observer), of the handler registry
    of [logic.js] and of the Grok handler's configuration, together with the
    properties the specification states about them.

    Conventions.
    - A JavaScript function that can throw returns a [completion].
    - Code that reads or writes the page takes the page and returns the new
      one next to its result.
    - Whatever the browser does while a task sleeps is the parameter
      [elapse] of the scheduler.
    - A method that a handler class redefines is a field of the object, so
      that a call made through the list of handlers runs the method of the
      object's class.
    - Texts are strings of bytes where the code compares them with ASCII
      texts, and lists of UTF-16 code units where it looks at the
      characters themselves. *)

From Stdlib Require Import ZArith List Bool String Ascii Lia.
From stdpp Require Import base option list gmap strings.

Set Default Proof Using "Type".

(** ** JavaScript values and completions *)

Inductive jsval :=
| JUndefined
| JNull
| JBool (b : bool)
| JNum (z : Z)
| JStr (s : string).

(** [if (v)]: the values that count as true. *)
Definition truthy (v : jsval) : bool :=
  match v with
  | JUndefined | JNull => false
  | JBool b => b
  | JNum z => negb (z =? 0)%Z
  | JStr s => negb (String.eqb s "")
  end.

(** The outcome of a call: a value, or a thrown value. *)
Inductive completion (A : Type) :=
| Normal (a : A)
| Throw (e : jsval).
Arguments Normal {A} a.
Arguments Throw {A} e.

(** An attempt counts as a success when it returns a truthy value. *)
Definition succeeded (r : completion jsval) : bool :=
  match r with
  | Normal v => truthy v
  | Throw _ => false
  end.

Definition is_throw (r : completion jsval) : bool :=
  match r with Throw _ => true | Normal _ => false end.

(** ** The retry scheduler: [waitFor] and [tryWithDelays] *)

(** What the scheduler does that can be observed from outside. *)
Inductive event :=
| EvGuard                           (* validationFn() was called *)
| EvSleep (ms : Z)                  (* await waitFor(ms) *)
| EvInvoke                          (* action() was called *)
| EvLogError (ms : Z) (e : jsval).  (* console.error in the catch block *)

Definition is_guard (e : event) : bool :=
  match e with EvGuard => true | _ => false end.
Definition is_invoke (e : event) : bool :=
  match e with EvInvoke => true | _ => false end.
Definition is_log (e : event) : bool :=
  match e with EvLogError _ _ => true | _ => false end.
Definition sleep_of (e : event) : Z :=
  match e with EvSleep ms => ms | _ => 0%Z end.

(** Number of calls of the action, of the guard and of [console.error] in a
    trace, and the total of the delays handed to [waitFor]. *)
Definition invocations (t : list event) : nat := length (filter is_invoke t).
Definition guardEvals (t : list event) : nat := length (filter is_guard t).
Definition loggedErrors (t : list event) : nat := length (filter is_log t).
Definition slept (t : list event) : Z := foldr (fun e acc => (sleep_of e + acc)%Z) 0%Z t.

Definition sumZ (l : list Z) : Z := foldr Z.add 0%Z l.

Section RetryScheduler.
Context {St : Type}.

(** [action] is an async function of no arguments: it returns a value or
    throws, and may change the page. *)
Definition action := St -> completion jsval * St.
(** [validationFn] reads the page; it may throw as well. *)
Definition guard := St -> completion jsval.

(** The page after the task was suspended for [ms] milliseconds. *)
Variable elapse : Z -> St -> St.

Record world := World { page : St; trace : list event }.

Definition emit (e : event) (w : world) : world :=
  World (page w) (trace w ++ [e]).

(** [await waitFor(ms)] *)
Definition waitFor (ms : Z) (w : world) : world :=
  emit (EvSleep ms) (World (elapse ms (page w)) (trace w)).

(** [await action()] *)
Definition invoke (a : action) (w : world) : completion jsval * world :=
  let w1 := emit EvInvoke w in
  let '(r, s) := a (page w1) in
  (r, World s (trace w1)).

(** The [for (const delay of delaysMs)] loop with its [try]/[catch]. *)
Fixpoint attempts (a : action) (delaysMs : list Z) (w : world) : bool * world :=
  match delaysMs with
  | [] => (false, w)
  | delay :: rest =>
      let w1 := waitFor delay w in
      let '(r, w2) := invoke a w1 in
      match r with
      | Normal success =>
          if truthy success then (true, w2) else attempts a rest w2
      | Throw error =>
          attempts a rest (emit (EvLogError delay error) w2)
      end
  end.

(** [tryWithDelays(action, delaysMs, validationFn = null)].  The call of
    [validationFn] is outside the [try], so what it throws leaves the
    function. *)
Definition tryWithDelays (a : action) (delaysMs : list Z)
    (validationFn : option guard) (w : world) : completion bool * world :=
  match validationFn with
  | Some g =>
      let w0 := emit EvGuard w in
      match g (page w0) with
      | Throw e => (Throw e, w0)
      | Normal v =>
          if truthy v
          then let '(b, w') := attempts a delaysMs w0 in (Normal b, w')
          else (Normal false, w0)
      end
  | None => let '(b, w') := attempts a delaysMs w in (Normal b, w')
  end.

(** *** What the action answers along a run

    The outcomes of the successive attempts if none of them stopped the
    loop: attempt [i] runs on the page left by attempt [i-1], after the
    [i]-th sleep. *)
Fixpoint outcomes (a : action) (delaysMs : list Z) (s : St)
    : list (completion jsval) :=
  match delaysMs with
  | [] => []
  | delay :: rest =>
      let '(r, s') := a (elapse delay s) in
      r :: outcomes a rest s'
  end.

(** How many attempts the loop makes on these outcomes. *)
Fixpoint made (outs : list (completion jsval)) : nat :=
  match outs with
  | [] => 0
  | r :: rs => if succeeded r then 1 else S (made rs)
  end.

(** The events of one attempt, and of a run of attempts. *)
Definition attempt_events (delay : Z) (r : completion jsval) : list event :=
  EvSleep delay :: EvInvoke ::
    match r with
    | Throw e => [EvLogError delay e]
    | Normal _ => []
    end.

Fixpoint script (delaysMs : list Z) (outs : list (completion jsval)) : list event :=
  match delaysMs, outs with
  | d :: ds, r :: rs => attempt_events d r ++ script ds rs
  | _, _ => []
  end.

(** The guard lets the scheduler start: there is none, or it returns a
    truthy value on the page the scheduler is entered with. *)
Definition guard_holds (vf : option guard) (s : St) : Prop :=
  match vf with
  | None => True
  | Some g => exists v, g s = Normal v /\ truthy v = true
  end.

(** The guard returns: there is none, or it does not throw. *)
Definition guard_returns (vf : option guard) (s : St) : Prop :=
  match vf with
  | None => True
  | Some g => exists v, g s = Normal v
  end.

Definition guard_events (vf : option guard) : list event :=
  match vf with
  | None => []
  | Some _ => [EvGuard]
  end.

(** *** The scheduler as the specification words it

    [runWithBackoff] follows the text of the specification: the guard is
    evaluated before each attempt. It is compared with [tryWithDelays]
    and is no part of the program. *)
Fixpoint runWithBackoff (a : action) (delays : list Z) (g : guard) (w : world)
    : completion bool * world :=
  match delays with
  | [] => (Normal false, w)
  | delay :: rest =>
      let w0 := emit EvGuard w in
      match g (page w0) with
      | Throw e => (Throw e, w0)
      | Normal v =>
          if truthy v then
            let w1 := waitFor delay w0 in
            let '(r, w2) := invoke a w1 in
            match r with
            | Normal success =>
                if truthy success then (Normal true, w2)
                else runWithBackoff a rest g w2
            | Throw error =>
                runWithBackoff a rest g (emit (EvLogError delay error) w2)
            end
          else (Normal false, w0)
      end
  end.

End RetryScheduler.

Arguments world St : clear implicits.
Arguments action St : clear implicits.
Arguments guard St : clear implicits.

(** ** Strings and patterns *)

Local Open Scope string_scope.

(** [s.includes(pat)] *)
Fixpoint includes (s pat : string) : bool :=
  String.prefix pat s ||
  match s with
  | EmptyString => false
  | String _ s' => includes s' pat
  end.

(** [s.endsWith(suf)] *)
Fixpoint endsWith (s suf : string) : bool :=
  String.eqb s suf ||
  match s with
  | EmptyString => false
  | String _ s' => endsWith s' suf
  end.

(** The regular expressions of the handlers' [urlPatterns] are built from
    literal characters, sequence, [?], and the anchors; alternation is the
    one further construct kept. None carries a flag, so [test] keeps no
    state between calls. *)
Inductive regex :=
| RChar (c : ascii)
| REmpty
| RSeq (r1 r2 : regex)
| RAlt (r1 r2 : regex)
| ROpt (r : regex)
| RBol                    (* ^ *)
| REol.                   (* $ *)

Definition snoc (l : string) (c : ascii) : string := l ++ String c EmptyString.

(** A backtracking matcher: [l] is the text before the current position,
    [s] the text from it on, [k] what remains to be matched. *)
Fixpoint rmatch (r : regex) (k : string -> string -> bool) (l s : string) : bool :=
  match r with
  | RChar c =>
      match s with
      | String c' s' => if Ascii.eqb c c' then k (snoc l c') s' else false
      | EmptyString => false
      end
  | REmpty => k l s
  | RSeq r1 r2 => rmatch r1 (rmatch r2 k) l s
  | RAlt r1 r2 => rmatch r1 k l s || rmatch r2 k l s
  | ROpt r1 => rmatch r1 k l s || k l s
  | RBol => match l with EmptyString => k l s | _ => false end
  | REol => match s with EmptyString => k l s | _ => false end
  end.

(** [pattern.test(url)]: a match may start at any position. *)
Fixpoint search (r : regex) (l s : string) : bool :=
  rmatch r (fun _ _ => true) l s ||
  match s with
  | EmptyString => false
  | String c s' => search r (snoc l c) s'
  end.

Definition regex_test (r : regex) (url : string) : bool := search r "" url.

(** What a regular expression matches: [matches r l m t] when [r] matches
    the text [m] found between [l] and [t]. *)
Inductive matches : regex -> string -> string -> string -> Prop :=
| MChar c l t : matches (RChar c) l (String c "") t
| MEmpty l t : matches REmpty l "" t
| MSeq r1 r2 l m1 m2 t :
    matches r1 l m1 (m2 ++ t) -> matches r2 (l ++ m1) m2 t ->
    matches (RSeq r1 r2) l (m1 ++ m2) t
| MAltL r1 r2 l m t : matches r1 l m t -> matches (RAlt r1 r2) l m t
| MAltR r1 r2 l m t : matches r2 l m t -> matches (RAlt r1 r2) l m t
| MOptSome r l m t : matches r l m t -> matches (ROpt r) l m t
| MOptNone r l t : matches (ROpt r) l "" t
| MBol t : matches RBol "" "" t
| MEol l : matches REol l "" "".

(** A literal text as a pattern. *)
Fixpoint lit (s : string) : regex :=
  match s with
  | EmptyString => REmpty
  | String c s' => RSeq (RChar c) (lit s')
  end.

(** An entry of [urlPatterns]. *)
Inductive matcher :=
| MString (s : string)
| MRegExp (r : regex)
| MOther (v : jsval).     (* neither a string nor a RegExp *)

(** The callback handed to [urlPatterns.some]. *)
Definition matcher_accepts (url : string) (pattern : matcher) : bool :=
  match pattern with
  | MString s => includes url s
  | MRegExp r => regex_test r url
  | MOther _ => false
  end.

(** What it means for a matcher to match, as the specification reads it. *)
Definition matcher_matches (url : string) (pattern : matcher) : Prop :=
  match pattern with
  | MString s => exists pre post, url = pre ++ s ++ post
  | MRegExp r => exists l m t, url = l ++ m ++ t /\ matches r l m t
  | MOther _ => False
  end.

(** ** The page: location, storage, navigation timing, console *)

(** [localStorage]: every access throws when the storage is closed to the
    page, and a write throws when the quota is used up. *)
Record Storage := {
  items : gmap string string;
  accessible : bool;
  writable : bool;
}.

Definition getItem (key : string) (st : Storage) : completion (option string) :=
  if accessible st then Normal (items st !! key)
  else Throw (JStr "SecurityError").

Definition setItem (key value : string) (st : Storage) : completion Storage :=
  if accessible st then
    if writable st then
      Normal {| items := <[key := value]> (items st);
                accessible := accessible st; writable := writable st |}
    else Throw (JStr "QuotaExceededError")
  else Throw (JStr "SecurityError").

Inductive logEntry :=
| LogGetError (key : string) (e : jsval)
| LogSetError (key : string) (e : jsval)
| LogInitError (hostname : string) (e : jsval).

Section Page.
Context {Dom : Type}.

Record Page := {
  loc_href : string;                         (* window.location.href *)
  loc_hostname : string;                     (* window.location.hostname *)
  localStorage : Storage;
  navEntries : completion (list string);     (* the [type] of each entry of
                                                performance.getEntriesByType("navigation") *)
  readyState : string;                       (* document.readyState *)
  console : list logEntry;
  dom : Dom;
}.

Definition with_storage (st : Storage) (p : Page) : Page :=
  {| loc_href := loc_href p; loc_hostname := loc_hostname p;
     localStorage := st; navEntries := navEntries p;
     readyState := readyState p; console := console p; dom := dom p |}.

Definition log (e : logEntry) (p : Page) : Page :=
  {| loc_href := loc_href p; loc_hostname := loc_hostname p;
     localStorage := localStorage p; navEntries := navEntries p;
     readyState := readyState p; console := console p ++ [e]; dom := dom p |}.

(** [getStorageItem(key, defaultValue = false)] *)
Definition getStorageItem (key : string) (defaultValue : bool) (p : Page)
    : bool * Page :=
  match getItem key (localStorage p) with
  | Normal value =>
      (match value with
       | None => defaultValue
       | Some v => String.eqb v "true"
       end, p)
  | Throw error => (defaultValue, log (LogGetError key error) p)
  end.

(** [setStorageItem(key, value)] *)
Definition setStorageItem (key : string) (value : bool) (p : Page)
    : bool * Page :=
  match setItem key (if value then "true" else "false") (localStorage p) with
  | Normal st => (true, with_storage st p)
  | Throw error => (false, log (LogSetError key error) p)
  end.

(** [isPageRefreshed()] *)
Definition isPageRefreshed (p : Page) : bool :=
  match navEntries p with
  | Normal entries =>
      match entries with
      | first :: _ => String.eqb first "reload"
      | [] => false
      end
  | Throw _ => false
  end.

(** *** [AIPlatformHandler] *)

Record Config := {
  hostname : string;
  storageKey : string;
  urlPatterns : list matcher;
  defaultDelays : list Z;
}.

(** The object handed to the constructor: any field may be missing. *)
Record ConfigArg := {
  arg_hostname : option string;
  arg_storageKey : option string;
  arg_urlPatterns : option (list matcher);
  arg_defaultDelays : option (list Z);
}.

(** [this.config = { hostname: "", ..., ...config }] *)
Definition constructor (config : ConfigArg) : Config :=
  {| hostname := default "" (arg_hostname config);
     storageKey := default "" (arg_storageKey config);
     urlPatterns := default [] (arg_urlPatterns config);
     defaultDelays := default [1000; 2000; 3000; 5000]%Z (arg_defaultDelays config) |}.

(** A handler: its configuration and the [enableFeatures] of its class. *)
Record Handler := {
  config : Config;
  enableFeatures : action Page;
}.

(** [enableFeatures] of the base class. *)
Definition enableFeatures_base : action Page :=
  fun p => (Throw (JStr "enableFeatures must be implemented by subclass"), p).

Definition isValidPage (h : Handler) (p : Page) : bool :=
  existsb (matcher_accepts (loc_href p)) (urlPatterns (config h)).

Definition isCurrentWebsite (h : Handler) (p : Page) : bool :=
  includes (loc_hostname p) (hostname (config h)) && isValidPage h p.

Definition setFeatureEnabled (h : Handler) (enabled : bool) (p : Page)
    : bool * Page :=
  setStorageItem (storageKey (config h)) enabled p.

Definition getFeatureEnabled (h : Handler) (p : Page) : bool * Page :=
  if isPageRefreshed p then
    let '(_, p') := setFeatureEnabled h false p in
    (false, p')
  else getStorageItem (storageKey (config h)) false p.

(** *** Tasks and listeners

    [runWithDelays] is started and not awaited, so [initialize] returns
    while the scheduler is still to run: the runtime keeps the calls of
    [tryWithDelays] that were made, with their three arguments, and the
    listeners registered for the [load] event. The one closure the code
    registers is [() => this.runWithDelays()]. *)
Record Task := {
  t_action : action Page;
  t_delays : list Z;
  t_guard : option (guard Page);
}.

Inductive Listener :=
| OnLoadRunWithDelays (h : Handler).

Record Runtime := {
  rt_page : Page;
  loadListeners : list Listener;
  schedulerCalls : list Task;
}.

Definition on_page (f : Page -> Page) (rt : Runtime) : Runtime :=
  {| rt_page := f (rt_page rt); loadListeners := loadListeners rt;
     schedulerCalls := schedulerCalls rt |}.

(** [() => this.isValidPage()] *)
Definition isValidPage_guard (h : Handler) : guard Page :=
  fun p => Normal (JBool (isValidPage h p)).

(** [runWithDelays()]: the call of [tryWithDelays] it makes. *)
Definition runWithDelays_task (h : Handler) : Task :=
  {| t_action := enableFeatures h;
     t_delays := defaultDelays (config h);
     t_guard := Some (isValidPage_guard h) |}.

Definition runWithDelays (h : Handler) (rt : Runtime) : Runtime :=
  {| rt_page := rt_page rt; loadListeners := loadListeners rt;
     schedulerCalls := schedulerCalls rt ++ [runWithDelays_task h] |}.

(** [window.addEventListener("load", ...)] *)
Definition addLoadListener (l : Listener) (rt : Runtime) : Runtime :=
  {| rt_page := rt_page rt; loadListeners := loadListeners rt ++ [l];
     schedulerCalls := schedulerCalls rt |}.

Definition run_listener (l : Listener) (rt : Runtime) : Runtime :=
  match l with
  | OnLoadRunWithDelays h => runWithDelays h rt
  end.

(** The call of the scheduler a listener makes when it runs. *)
Definition listener_task (l : Listener) : Task :=
  match l with
  | OnLoadRunWithDelays h => runWithDelays_task h
  end.

(** The browser fires [load]: the document is complete and every
    listener runs, in the order of registration. *)
Definition dispatchLoad (rt : Runtime) : Runtime :=
  let p := rt_page rt in
  let rt1 :=
    {| rt_page :=
         {| loc_href := loc_href p; loc_hostname := loc_hostname p;
            localStorage := localStorage p; navEntries := navEntries p;
            readyState := "complete"; console := console p; dom := dom p |};
       loadListeners := loadListeners rt;
       schedulerCalls := schedulerCalls rt |} in
  foldl (fun acc l => run_listener l acc) rt1 (loadListeners rt).

(** [initialize()] *)
Definition initialize (h : Handler) (rt : Runtime) : bool * Runtime :=
  if negb (isCurrentWebsite h (rt_page rt)) then (false, rt)
  else
    let rt1 := on_page (fun p => snd (setFeatureEnabled h false p)) rt in
    if String.eqb (readyState (rt_page rt1)) "complete"
    then (true, runWithDelays h rt1)
    else (true, addLoadListener (OnLoadRunWithDelays h) rt1).

(** What a recorded call does once it runs. *)
Definition run_task (elapse : Z -> Page -> Page) (t : Task)
    (w : world Page) : completion bool * world Page :=
  tryWithDelays elapse (t_action t) (t_delays t) (t_guard t) w.

(** *** The handler list and the mutation observer *)

(** [handler.initialize()] is looked up on the object. Every handler class
    of the repository inherits [initialize] from [AIPlatformHandler] but
    [GoogleAIStudioHandler], which defines its own. *)
Inductive InitializeMethod :=
| InheritedInitialize
| StudioInitialize.

(** An element of [handlers]: the configuration and [enableFeatures] of the
    object, which the inherited methods read, and the [initialize] its
    class gives it. *)
Record HandlerObject := {
  as_handler : Handler;
  its_initialize : InitializeMethod;
}.

(** An object of a class that inherits [initialize]. *)
Definition inheriting (h : Handler) : HandlerObject :=
  {| as_handler := h; its_initialize := InheritedInitialize |}.

(** What the content scripts of a page hold: the runtime, and the number
    of mutation observers that [GoogleAIStudioHandler.initialize] has
    connected to [document.body]. *)
Record Content := {
  c_runtime : Runtime;
  studioObservers : nat;
}.

(** What a call of [initialize()] hands back: the promise of the async
    method of the base class, settled here with [value], or [undefined]. *)
Inductive InitializeResult :=
| ReturnsPromise (value : bool)
| ReturnsUndefined.

(** [initialize()] of [GoogleAIStudioHandler]: a plain method that
    connects a new observer to [document.body] and returns nothing. It
    writes no flag and makes no call of the scheduler. The scripts run at
    [document_idle], so [document.body] is there. *)
Definition studioInitialize (c : Content) : InitializeResult * Content :=
  (ReturnsUndefined,
   {| c_runtime := c_runtime c; studioObservers := S (studioObservers c) |}).

(** [handler.initialize()] *)
Definition callInitialize (handler : HandlerObject) (c : Content)
    : InitializeResult * Content :=
  match its_initialize handler with
  | InheritedInitialize =>
      let '(value, rt) := initialize (as_handler handler) (c_runtime c) in
      (ReturnsPromise value,
       {| c_runtime := rt; studioObservers := studioObservers c |})
  | StudioInitialize => studioInitialize c
  end.

(** [initializeHandlers()]. The promise of the inherited [initialize] is
    never rejected, so the handler given to [catch] does not run. On
    [undefined] the lookup of [catch] is a [TypeError]: it leaves the loop
    and the function, and the handlers that follow are not reached. What
    [initialize] does after its first [await] runs once the loop is over
    or has been left; it reads nothing that the loop changes, and the
    calls are made in the order of the list. *)
Fixpoint initializeHandlers (handlers : list HandlerObject) (c : Content)
    : completion unit * Content :=
  match handlers with
  | [] => (Normal tt, c)
  | handler :: rest =>
      if isCurrentWebsite (as_handler handler) (rt_page (c_runtime c))
      then
        match callInitialize handler c with
        | (ReturnsPromise _, c') => initializeHandlers rest c'
        | (ReturnsUndefined, c') => (Throw (JStr "TypeError"), c')
        end
      else initializeHandlers rest c
  end.

(** The callback of the mutation observer; [lastUrl] is threaded, and is
    assigned before [initializeHandlers] is called. *)
Definition onMutation (handlers : list HandlerObject) (lastUrl : string)
    (c : Content) : string * (completion unit * Content) :=
  let url := loc_href (rt_page (c_runtime c)) in
  if negb (String.eqb url lastUrl)
  then (url, initializeHandlers handlers c)
  else (lastUrl, (Normal tt, c)).

(** The loop of [initializeHandlers] over handlers that all inherit
    [initialize], on the runtime alone. *)
Definition initializeInherited (handlers : list Handler) (rt : Runtime) : Runtime :=
  foldl (fun acc handler =>
           if isCurrentWebsite handler (rt_page acc)
           then snd (initialize handler acc)
           else acc)
        rt handlers.

(** A handler object answers the call of [initializeHandlers] on page [p]
    with a promise: it is skipped there, or it inherits [initialize]. *)
Definition answers (p : Page) (o : HandlerObject) : Prop :=
  isCurrentWebsite (as_handler o) p = true -> its_initialize o = InheritedInitialize.

End Page.

Arguments Page Dom : clear implicits.
Arguments Handler Dom : clear implicits.
Arguments Task Dom : clear implicits.
Arguments Listener Dom : clear implicits.
Arguments Runtime Dom : clear implicits.
Arguments HandlerObject Dom : clear implicits.
Arguments Content Dom : clear implicits.

(** ** The registry and the URL watcher of [logic.js] *)

Module Logic.

(** A handler object of [logic.js]; handlers are compared by identity, so
    they live in a heap and are named by their address. *)
Record HandlerObj := {
  platform : string;
  initialized : bool;
}.

(** [new AIPlatformHandler()] *)
Definition newHandler : HandlerObj :=
  {| platform := "unknown"; initialized := false |}.

Inductive call :=
| CallCleanup (r : nat)              (* r.cleanup() *)
| CallInit (r : nat)                 (* r.init() *)
| CallEnableFeatures (r : nat).      (* r.enableFeatures(), from init() *)

Record State := {
  heap : gmap nat HandlerObj;
  platformHandlers : list (string * nat);  (* the Map, in insertion order *)
  currentUrl : string;
  currentHandler : option nat;             (* null is None *)
  calls : list call;
}.

(** [window.location] at the time of an event. *)
Record Location := {
  href : string;
  hostname : string;
}.

Definition set_heap (hp : gmap nat HandlerObj) (st : State) : State :=
  {| heap := hp; platformHandlers := platformHandlers st;
     currentUrl := currentUrl st; currentHandler := currentHandler st;
     calls := calls st |}.
Definition set_currentUrl (u : string) (st : State) : State :=
  {| heap := heap st; platformHandlers := platformHandlers st;
     currentUrl := u; currentHandler := currentHandler st;
     calls := calls st |}.
Definition set_currentHandler (h : option nat) (st : State) : State :=
  {| heap := heap st; platformHandlers := platformHandlers st;
     currentUrl := currentUrl st; currentHandler := h;
     calls := calls st |}.
Definition record (c : call) (st : State) : State :=
  {| heap := heap st; platformHandlers := platformHandlers st;
     currentUrl := currentUrl st; currentHandler := currentHandler st;
     calls := calls st ++ [c] |}.

Definition set_initialized (b : bool) (o : HandlerObj) : HandlerObj :=
  {| platform := platform o; initialized := b |}.

(** [Map.prototype.get], [has] and [set] on the insertion-ordered map. *)
Fixpoint map_get (key : string) (m : list (string * nat)) : option nat :=
  match m with
  | [] => None
  | (k, v) :: m' => if String.eqb key k then Some v else map_get key m'
  end.

Fixpoint map_set (key : string) (v : nat) (m : list (string * nat))
    : list (string * nat) :=
  match m with
  | [] => [(key, v)]
  | (k, v') :: m' =>
      if String.eqb key k then (k, v) :: m' else (k, v') :: map_set key v m'
  end.

(** [registerPlatformHandler(domain, handler)] *)
Definition registerPlatformHandler (domain : string) (handler : nat)
    (st : State) : State :=
  {| heap := heap st;
     platformHandlers := map_set domain handler (platformHandlers st);
     currentUrl := currentUrl st; currentHandler := currentHandler st;
     calls := calls st |}.

(** [hostname.replace(/^www\./, "")] *)
Definition withoutWww (hostname : string) : string :=
  if String.prefix "www." hostname
  then String.substring 4 (String.length hostname - 4) hostname
  else hostname.

(** The loop of the subdomain match: the first entry that fits. *)
Fixpoint subdomain_match (hostname : string) (m : list (string * nat))
    : option nat :=
  match m with
  | [] => None
  | (domain, handler) :: m' =>
      if endsWith hostname ("." ++ domain) || String.eqb hostname domain
      then Some handler
      else subdomain_match hostname m'
  end.

(** [getHandlerForCurrentPage()] *)
Definition getHandlerForCurrentPage (hostname : string) (st : State)
    : option nat :=
  match map_get hostname (platformHandlers st) with
  | Some h => Some h
  | None =>
      match map_get (withoutWww hostname) (platformHandlers st) with
      | Some h => Some h
      | None => subdomain_match hostname (platformHandlers st)
      end
  end.

(** [cleanup()] *)
Definition cleanup (r : nat) (st : State) : State :=
  record (CallCleanup r) (set_heap (alter (set_initialized false) r (heap st)) st).

(** [init()]: nothing happens on a handler that is initialized; what
    [enableFeatures] does to the document is outside this state, and what
    it throws is caught and logged. *)
Definition init (r : nat) (st : State) : State :=
  let st0 := record (CallInit r) st in
  match heap st0 !! r with
  | Some o =>
      if initialized o then st0
      else record (CallEnableFeatures r)
             (set_heap (alter (set_initialized true) r (heap st0)) st0)
  | None => st0
  end.

(** [handleUrlChange()] *)
Definition handleUrlChange (loc : Location) (st : State) : State :=
  let newUrl := href loc in
  if negb (String.eqb newUrl (currentUrl st)) then
    let st1 := set_currentUrl newUrl st in
    match getHandlerForCurrentPage (hostname loc) st1 with
    | Some handler =>
        if negb (bool_decide (currentHandler st1 = Some handler)) then
          let st2 :=
            match currentHandler st1 with
            | Some previous => cleanup previous st1
            | None => st1
            end in
          init handler (set_currentHandler (Some handler) st2)
        else st1
    | None => st1
    end
  else st.

(** The body of [initExtension] after its wait, on a supported platform. *)
Definition initExtension (loc : Location) (st : State) : State :=
  let found := getHandlerForCurrentPage (hostname loc) st in
  let st1 := set_currentHandler found st in
  match found with
  | Some handler => init handler st1
  | None => st1
  end.

(** A handler is active when its [initialized] flag is set. *)
Definition active (st : State) (r : nat) : Prop :=
  exists o, heap st !! r = Some o /\ initialized o = true.

(** Only the current handler may be active. *)
Definition only_current_active (st : State) : Prop :=
  forall r, active st r -> currentHandler st = Some r.

(** Every registered handler is an object of the heap. *)
Definition registry_valid (st : State) : Prop :=
  forall domain r, (domain, r) ∈ platformHandlers st -> is_Some (heap st !! r).

(** A run of the watcher over successive locations. *)
Definition navigate (locs : list Location) (st : State) : State :=
  foldl (fun acc loc => handleUrlChange loc acc) st locs.

End Logic.

(** ** The Grok handler *)

Module Grok.
(** [/grok\.com\/?$/] *)
Definition root_pattern : regex :=
  RSeq (lit "grok.com") (RSeq (ROpt (RChar "/")) REol).

(** The [urlPatterns] of [GrokHandler]. *)
Definition urlPatterns : list matcher :=
  [MString "grok.com/new"; MString "grok.com/chat"; MRegExp root_pattern].

Definition config_arg : @ConfigArg :=
  {| arg_hostname := Some "grok.com";
     arg_storageKey := Some "grok-thinking-enabled";
     arg_urlPatterns := Some urlPatterns;
     arg_defaultDelays := Some [1500; 3000; 5000; 7000]%Z |}.

(** The two matchers of the specification's example. *)
Definition spec_matchers : list matcher :=
  [MString "grok.com/new"; MRegExp root_pattern].
End Grok.

(** ** Concrete runs *)

Module Example.
(** A page that only counts the attempts made on it. The action fails
    twice and succeeds from the third attempt on; the guard holds until two
    attempts have been made. *)
Definition succeedsThird : action nat :=
  fun n => (Normal (JBool (2 <=? n)%nat), S n).
Definition untilTwo : guard nat :=
  fun n => Normal (JBool (n <? 2)%nat).
(** An action that throws on odd attempts and returns [undefined] on the
    others. *)
Definition neverSucceeds : action nat :=
  fun n => (if Nat.even n then Throw (JStr "not ready") else Normal JUndefined, S n).
Definition alwaysTrue : guard nat := fun _ => Normal (JBool true).
Definition alwaysFalse : guard nat := fun _ => Normal (JBool false).
Definition still : Z -> nat -> nat := fun _ n => n.
Definition start : world nat := World 0 [].
Definition delays : list Z := [1000; 2000; 3000; 5000]%Z.

(** Pages without a document model. *)
Definition storageOf (m : gmap string string) (open room : bool) : Storage :=
  {| items := m; accessible := open; writable := room |}.

Definition pageOf (url host : string) (st : Storage)
    (nav : completion (list string)) (ready : string) : Page unit :=
  {| loc_href := url; loc_hostname := host; localStorage := st;
     navEntries := nav; readyState := ready; console := []; dom := tt |}.

Definition flagKey : string := "grok-thinking-enabled".

(** A Grok page where the flag was left set. *)
Definition flagged : gmap string string := {[ flagKey := "true" ]}.
Definition navigated : Page unit :=
  pageOf "https://grok.com/" "grok.com" (storageOf flagged true true)
         (Normal ["navigate"]) "complete".
Definition reloaded : Page unit :=
  pageOf "https://grok.com/" "grok.com" (storageOf flagged true true)
         (Normal ["reload"]) "complete".
Definition loading : Page unit :=
  pageOf "https://grok.com/new" "grok.com" (storageOf flagged true true)
         (Normal ["navigate"]) "loading".
Definition quotaUsedUp : Page unit :=
  pageOf "https://grok.com/" "grok.com" (storageOf flagged true false)
         (Normal ["navigate"]) "complete".

(** The Grok handler, with the [enableFeatures] of the base class in the
    place of its own, which works on the document. *)
Definition grokHandler : Handler unit :=
  {| config := constructor Grok.config_arg;
     enableFeatures := enableFeatures_base |}.

(** A handler with the two matchers of the specification's example. *)
Definition specHandler : Handler unit :=
  {| config :=
       constructor {| arg_hostname := Some "grok.com";
                      arg_storageKey := Some flagKey;
                      arg_urlPatterns := Some Grok.spec_matchers;
                      arg_defaultDelays := None |};
     enableFeatures := enableFeatures_base |}.

Definition visit (url : string) : Page unit :=
  pageOf url "grok.com" (storageOf ∅ true true) (Normal ["navigate"]) "complete".

Definition runtimeOf (p : Page unit) : Runtime unit :=
  {| rt_page := p; loadListeners := []; schedulerCalls := [] |}.

(** Two handlers registered with [logic.js]; the first one is current
    and initialized. *)
Definition claudeRef : nat := 0.
Definition grokRef : nat := 1.
Definition onClaude : Logic.State :=
  {| Logic.heap :=
       <[claudeRef := Logic.set_initialized true Logic.newHandler]>
         (<[grokRef := Logic.newHandler]> ∅);
     Logic.platformHandlers := [("claude.ai", claudeRef); ("grok.com", grokRef)];
     Logic.currentUrl := "https://claude.ai/new";
     Logic.currentHandler := Some claudeRef;
     Logic.calls := [] |}.
Definition toGrok : Logic.Location :=
  {| Logic.href := "https://grok.com/"; Logic.hostname := "grok.com" |}.
End Example.

(** ** More of the scheduler's trace *)

Definition is_sleep (e : event) : bool :=
  match e with EvSleep _ => true | _ => false end.

(** Number of calls of [waitFor] in a trace. *)
Definition sleeps (t : list event) : nat := length (filter is_sleep t).

(** ** Handlers that work on the document

    [enableFeatures] of a platform reads the document, clicks and waits. The
    document is a parameter: its queries are the functions below, and what
    the site's own listeners do when an event is dispatched is [react]. The
    events a handler dispatches are kept next to the page. *)

Module Dom.

(** *** JavaScript strings and [trim] *)

(** [innerText] is a JavaScript string, a sequence of UTF-16 code units,
    and [trim] looks at characters outside ASCII: the text is kept as the
    list of its code units. *)
Definition codeUnits : Type := list N.

(** The code units [trim] removes: WhiteSpace and LineTerminator of
    ECMAScript, all of them in the basic plane. *)
Definition isWhiteSpace (u : N) : bool :=
  ((u =? 0x0009) || (u =? 0x000B) || (u =? 0x000C) || (u =? 0x0020)
   || (u =? 0x00A0) || (u =? 0x1680) || ((0x2000 <=? u) && (u <=? 0x200A))
   || (u =? 0x202F) || (u =? 0x205F) || (u =? 0x3000) || (u =? 0xFEFF)
   || (u =? 0x000A) || (u =? 0x000D) || (u =? 0x2028) || (u =? 0x2029))%N.

Fixpoint trimStart (s : codeUnits) : codeUnits :=
  match s with
  | [] => []
  | u :: s' => if isWhiteSpace u then trimStart s' else s
  end.

(** [String.prototype.trim] *)
Definition trim (s : codeUnits) : codeUnits :=
  rev (trimStart (rev (trimStart s))).

(** [s === ""] *)
Definition isEmptyString (s : codeUnits) : bool :=
  match s with
  | [] => true
  | _ :: _ => false
  end.

Section Document.
Context {D El : Type}.

(** The document after the listeners of the site have handled an event of
    the given type on an element. *)
Variable react : El -> string -> D -> D.
(** The page after the task was suspended for the given time. *)
Variable elapse : Z -> Page D -> Page D.

Record run := Run {
  r_page : Page D;
  r_events : list (El * string);     (* the calls of dispatchEvent, oldest first *)
}.

(** Code that reads and changes the page and dispatches events. *)
Definition Act (A : Type) : Type := run -> A * run.

#[global] Instance Act_ret : MRet Act := fun A (a : A) w => (a, w).
#[global] Instance Act_bind : MBind Act :=
  fun A B (k : A -> Act B) (c : Act A) w => let '(a, w') := c w in k a w'.

Definition getPage : Act (Page D) := fun w => (r_page w, w).
Definition getDom : Act D := fun w => (dom (r_page w), w).

(** A function of the page run as a step. *)
Definition onPage {A : Type} (f : Page D -> A * Page D) : Act A :=
  fun w => let '(a, p) := f (r_page w) in (a, Run p (r_events w)).

Definition with_dom (d : D) (p : Page D) : Page D :=
  {| loc_href := loc_href p; loc_hostname := loc_hostname p;
     localStorage := localStorage p; navEntries := navEntries p;
     readyState := readyState p; console := console p; dom := d |}.

(** [element.dispatchEvent(new MouseEvent(type, ...))] *)
Definition dispatchEvent (element : El) (type : string) : Act unit :=
  fun w =>
    (tt, Run (with_dom (react element type (dom (r_page w))) (r_page w))
             (r_events w ++ [(element, type)])).

(** [simulateClick(element)]; [None] is a null element. *)
Definition simulateClick (element : option El) : Act bool :=
  match element with
  | None => mret false
  | Some e =>
      dispatchEvent e "mousedown";;
      dispatchEvent e "click";;
      dispatchEvent e "mouseup";;
      mret true
  end.

(** [await waitFor(ms)] *)
Definition waitFor (ms : Z) : Act unit :=
  fun w => (tt, Run (elapse ms (r_page w)) (r_events w)).

(** The three events of a click on an element. *)
Definition click_events (e : El) : list (El * string) :=
  [(e, "mousedown"); (e, "click"); (e, "mouseup")].

(** *** Queries on the document *)

(** [document.querySelectorAll("button")], in document order. *)
Variable buttons : D -> list El.
(** The [textContent] of the first [span] below an element, when it has
    one. *)
Variable spanText : El -> D -> option string.
(** [element.getAttribute(name)]; an absent attribute is [None]. *)
Variable getAttribute : El -> string -> D -> option string.
(** [element.textContent || ""] and [element.innerText]. *)
Variable textContent : El -> D -> string.
Variable innerText : El -> D -> codeUnits.
(** [document.querySelectorAll('[data-mention-id="canvas"]')] *)
Variable canvasMentions : D -> list El.
(** [document.querySelector('.ProseMirror[id="prompt-textarea"]')],
    [document.querySelector('[aria-label="Use a tool"]')] and
    [document.querySelector("body")]. *)
Variable promptEditor : D -> option El.
Variable toolsButton : D -> option El.
Variable body : D -> option El.

(** *** [GrokHandler] *)

(** The callback of [find] in [toggleGrokThinking]. *)
Definition isThinkButton (d : D) (button : El) : bool :=
  match spanText button d with
  | Some text => String.eqb text "Think"
  | None => false
  end && bool_decide (is_Some (getAttribute button "aria-pressed" d)).

(** [thinkButton.getAttribute("aria-pressed") === "true"] *)
Definition isPressed (d : D) (button : El) : bool :=
  match getAttribute button "aria-pressed" d with
  | Some v => String.eqb v "true"
  | None => false
  end.

(** [toggleGrokThinking()]. Nothing in its body throws here (the storage
    functions catch what the storage throws), so its [catch] never runs. *)
Definition toggleGrokThinking (this : Handler D) : Act bool :=
  enabled ← onPage (getFeatureEnabled this);
  if enabled : bool then mret true
  else
    d ← getDom;
    match List.find (isThinkButton d) (buttons d) with
    | None => mret false
    | Some thinkButton =>
        if isPressed d thinkButton then
          onPage (setFeatureEnabled this true);;
          mret true
        else
          simulateClick (Some thinkButton);;
          waitFor 500;;
          d' ← getDom;
          if isPressed d' thinkButton then
            onPage (setFeatureEnabled this true);;
            mret true
          else mret false
    end.

(** A method of [Act] as the action the scheduler calls. *)
Definition as_action (m : Act bool) : action (Page D) :=
  fun p => let '(b, w) := m (Run p []) in (Normal (JBool b), r_page w).

(** The handler: the methods it inherits read [this.config] only, so they
    are run on [grokBase], which has the same configuration. [GrokHandler]
    and [ChatGPTHandler] define no [initialize] of their own. *)
Definition grokBase : Handler D :=
  {| config := constructor Grok.config_arg;
     enableFeatures := enableFeatures_base |}.

Definition GrokHandler : Handler D :=
  {| config := config grokBase;
     enableFeatures := as_action (toggleGrokThinking grokBase) |}.

(** The end of [grok.js]: [handlers.push(grokHandler)], then
    [initialize()] when the hostname contains "grok.com". *)
Definition grokScript (handlers : list (HandlerObject D)) (rt : Runtime D)
    : list (HandlerObject D) * Runtime D :=
  let handlers' := (handlers ++ [inheriting GrokHandler])%list in
  if includes (loc_hostname (rt_page rt)) "grok.com"
  then (handlers', snd (initialize GrokHandler rt))
  else (handlers', rt).

(** *** [ChatGPTHandler] *)

Definition chatGPTConfig : ConfigArg :=
  {| arg_hostname := Some "chatgpt.com";
     arg_storageKey := Some "chatgpt-canvas-enabled";
     arg_urlPatterns :=
       Some [MRegExp (RSeq (lit "chatgpt.com") (RSeq (ROpt (RChar "/")) REol));
             MString "chatgpt.com/c/"];
     arg_defaultDelays := Some [500; 1000; 2000; 3000; 5000]%Z |}.

Definition isCanvasAlreadyEnabled (d : D) : bool :=
  match canvasMentions d with
  | [] => false
  | _ :: _ => true
  end.

(** [enableChatGPTCanvas()]; as above its [catch] never runs. *)
Definition enableChatGPTCanvas (this : Handler D) : Act bool :=
  p ← getPage;
  if negb (isValidPage this p) then mret false
  else
    enabled ← onPage (getFeatureEnabled this);
    d ← getDom;
    if (enabled : bool) && isCanvasAlreadyEnabled d then mret true
    else
      match promptEditor d with
      | None => mret false
      | Some proseMirrorEditor =>
          let isEditorEmpty :=
            isEmptyString (trim (innerText proseMirrorEditor d)) in
          if negb isEditorEmpty then mret false
          else
            match toolsButton d with
            | None => mret false
            | Some tools =>
                simulateClick (Some tools);;
                waitFor 500;;
                d1 ← getDom;
                match List.find (fun button => includes (textContent button d1) "Canvas")
                                (buttons d1) with
                | None =>
                    match body d1 with
                    | Some outsideClick => simulateClick (Some outsideClick);; mret tt
                    | None => mret tt
                    end;;
                    mret false
                | Some canvasButton =>
                    simulateClick (Some canvasButton);;
                    waitFor 300;;
                    d2 ← getDom;
                    if isCanvasAlreadyEnabled d2 then
                      onPage (setFeatureEnabled this true);;
                      mret true
                    else mret false
                end
            end
      end.

(** [enableFeatures()] of [ChatGPTHandler] *)
Definition chatGPT_enableFeatures (this : Handler D) : Act bool :=
  d ← getDom;
  if isCanvasAlreadyEnabled d then
    onPage (setFeatureEnabled this true);;
    mret true
  else enableChatGPTCanvas this.

Definition chatGPTBase : Handler D :=
  {| config := constructor chatGPTConfig;
     enableFeatures := enableFeatures_base |}.

Definition ChatGPTHandler : Handler D :=
  {| config := config chatGPTBase;
     enableFeatures := as_action (chatGPT_enableFeatures chatGPTBase) |}.

(** The end of the ChatGPT script: [handlers.push], then [initialize()]
    when the hostname contains "chatgpt.com" and the page is valid. *)
Definition chatGPTScript (handlers : list (HandlerObject D)) (rt : Runtime D)
    : list (HandlerObject D) * Runtime D :=
  let handlers' := (handlers ++ [inheriting ChatGPTHandler])%list in
  if includes (loc_hostname (rt_page rt)) "chatgpt.com"
     && isValidPage ChatGPTHandler (rt_page rt)
  then (handlers', snd (initialize ChatGPTHandler rt))
  else (handlers', rt).

End Document.

End Dom.

(** ** The utilities, the platform table and the observer of [logic.js] *)

Module LogicUtil.

(** *** [detectPlatform] *)

Record PlatformInfo := {
  name : string;
  handler : string;
}.

(** [SUPPORTED_PLATFORMS], in the order of its keys. *)
Definition SUPPORTED_PLATFORMS : list (string * PlatformInfo) :=
  [("claude.ai", {| name := "Claude"; handler := "claudeHandler" |});
   ("grok.com", {| name := "Grok"; handler := "grokHandler" |});
   ("chat.deepseek.com", {| name := "DeepSeek"; handler := "deepseekHandler" |});
   ("chatgpt.com", {| name := "ChatGPT"; handler := "chatgptHandler" |});
   ("chat.openai.com", {| name := "ChatGPT (Legacy)"; handler := "chatgptHandler" |});
   ("gemini.google.com", {| name := "Gemini"; handler := "geminiHandler" |});
   ("aistudio.google.com",
    {| name := "Google AI Studio"; handler := "googleaistudioHandler" |})].

(** The test of the loop of [detectPlatform]. *)
Definition platform_fits (hostname : string) (entry : string * PlatformInfo) : bool :=
  String.eqb hostname (fst entry) || endsWith hostname ("." ++ fst entry).

(** [detectPlatform()] over a table; the result is the domain with its
    entry. *)
Definition detectPlatformIn (table : list (string * PlatformInfo))
    (location_hostname : string) : option (string * PlatformInfo) :=
  let hostname := Logic.withoutWww location_hostname in
  List.find (platform_fits hostname) table.

Definition detectPlatform : string -> option (string * PlatformInfo) :=
  detectPlatformIn SUPPORTED_PLATFORMS.

(** *** [clickElement] *)

Section ClickElement.
Context {St El : Type}.

(** [document.querySelector(selector)] *)
Variable querySelector : string -> St -> option El.
(** [element.click()], which may throw. *)
Variable click : El -> St -> completion unit * St.
Variable elapse : Z -> St -> St.

Inductive cevent :=
| CQuery (selector : string)
| CClick (element : El)
| CWarn (attempt : nat) (e : jsval)      (* console.warn, with i + 1 *)
| CWait (ms : Z).

Record cworld := CWorld { c_page : St; c_trace : list cevent }.

Definition cemit (e : cevent) (w : cworld) : cworld :=
  CWorld (c_page w) (c_trace w ++ [e]).

Definition cwait (ms : Z) (w : cworld) : cworld :=
  cemit (CWait ms) (CWorld (elapse ms (c_page w)) (c_trace w)).

(** The loop of [clickElement] with [n] rounds left, [i] being the loop
    variable. *)
Fixpoint clickLoop (selector : string) (n i : nat) (w : cworld) : bool * cworld :=
  match n with
  | 0 => (false, w)
  | S n' =>
      let w1 := cemit (CQuery selector) w in
      match querySelector selector (c_page w1) with
      | Some element =>
          let '(r, s) := click element (c_page w1) in
          let w2 := cemit (CClick element) (CWorld s (c_trace w1)) in
          match r with
          | Normal _ => (true, w2)
          | Throw e =>
              clickLoop selector n' (S i) (cwait 500 (cemit (CWarn (i + 1) e) w2))
          end
      | None => clickLoop selector n' (S i) (cwait 500 w1)
      end
  end.

(** [clickElement(selector, retries = 3)], for a whole number of retries. *)
Definition clickElement (selector : string) (retries : option Z) (w : cworld)
    : bool * cworld :=
  clickLoop selector (Z.to_nat (default 3%Z retries)) 0 w.

Definition is_cquery (e : cevent) : bool :=
  match e with CQuery _ => true | _ => false end.
Definition is_cclick (e : cevent) : bool :=
  match e with CClick _ => true | _ => false end.
Definition cwait_of (e : cevent) : Z :=
  match e with CWait ms => ms | _ => 0%Z end.

Definition queries (t : list cevent) : nat := length (List.filter is_cquery t).
Definition clicks (t : list cevent) : nat := length (List.filter is_cclick t).
Definition waited (t : list cevent) : Z :=
  fold_right (fun e acc => (cwait_of e + acc)%Z) 0%Z t.

End ClickElement.

(** *** The debounced mutation observer *)

Section Observer.
(** A batch of mutation records. *)
Context {Batch : Type}.

Record ObserverState := {
  mutationObserver : option nat;        (* the observer, null when None *)
  observing : list nat;                 (* the observers that are connected *)
  nextObserver : nat;
  debounceTimer : option nat;           (* the last timer id, null when None *)
  timers : gmap nat Batch;              (* the timeouts that are pending *)
  nextTimer : nat;
  delivered : list (string * Batch);    (* what the timeouts handed to the
                                           handler lookup: hostname, batch *)
}.

Definition initialObserver : ObserverState :=
  {| mutationObserver := None; observing := []; nextObserver := 0;
     debounceTimer := None; timers := ∅; nextTimer := 0; delivered := [] |}.

(** [startMutationObserver()] *)
Definition startMutationObserver (st : ObserverState) : ObserverState :=
  match mutationObserver st with
  | Some _ => st
  | None =>
      {| mutationObserver := Some (nextObserver st);
         observing := observing st ++ [nextObserver st];
         nextObserver := S (nextObserver st);
         debounceTimer := debounceTimer st; timers := timers st;
         nextTimer := nextTimer st; delivered := delivered st |}
  end.

(** [stopMutationObserver()] *)
Definition stopMutationObserver (st : ObserverState) : ObserverState :=
  match mutationObserver st with
  | Some o =>
      {| mutationObserver := None;
         observing := List.filter (fun o' => negb (Nat.eqb o' o)) (observing st);
         nextObserver := nextObserver st;
         debounceTimer := debounceTimer st; timers := timers st;
         nextTimer := nextTimer st; delivered := delivered st |}
  | None => st
  end.

(** [clearTimeout(id)]; clearing null or a timer that is gone does nothing. *)
Definition clearTimeout (id : option nat) (m : gmap nat Batch) : gmap nat Batch :=
  match id with
  | Some t => delete t m
  | None => m
  end.

(** The callback of the observer: the pending timeout is cleared and a
    new one is set, which keeps the batch. *)
Definition observerCallback (mutations : Batch) (st : ObserverState)
    : ObserverState :=
  {| mutationObserver := mutationObserver st; observing := observing st;
     nextObserver := nextObserver st;
     debounceTimer := Some (nextTimer st);
     timers := <[nextTimer st := mutations]> (clearTimeout (debounceTimer st) (timers st));
     nextTimer := S (nextTimer st);
     delivered := delivered st |}.

(** The document changes: every connected observer gets the batch. *)
Definition mutate (mutations : Batch) (st : ObserverState) : ObserverState :=
  fold_left (fun acc _ => observerCallback mutations acc) (observing st) st.

(** A timeout runs on a page with the given hostname: its batch is what
    [onDomChange] of the handler found for the page would get. *)
Definition fireTimer (id : nat) (hostname : string) (st : ObserverState)
    : ObserverState :=
  match timers st !! id with
  | Some mutations =>
      {| mutationObserver := mutationObserver st; observing := observing st;
         nextObserver := nextObserver st;
         debounceTimer := debounceTimer st;
         timers := delete id (timers st);
         nextTimer := nextTimer st;
         delivered := delivered st ++ [(hostname, mutations)] |}
  | None => st
  end.

Inductive observerStep :=
| StepStart
| StepStop
| StepMutate (mutations : Batch)
| StepFire (id : nat) (hostname : string).

Definition observerRun (e : observerStep) (st : ObserverState) : ObserverState :=
  match e with
  | StepStart => startMutationObserver st
  | StepStop => stopMutationObserver st
  | StepMutate m => mutate m st
  | StepFire id h => fireTimer id h st
  end.

Definition observerRuns (es : list observerStep) (st : ObserverState)
    : ObserverState :=
  fold_left (fun acc e => observerRun e acc) es st.

(** The state the code keeps in shape: at most one observer is connected,
    and it is the one [mutationObserver] holds; the only timeout that can be
    pending is the one [debounceTimer] names; fresh ids are fresh. *)
Definition observer_ok (st : ObserverState) : Prop :=
  observing st = match mutationObserver st with Some o => [o] | None => [] end /\
  (forall o, mutationObserver st = Some o -> o < nextObserver st) /\
  (forall t, is_Some (timers st !! t) -> debounceTimer st = Some t) /\
  (forall t, debounceTimer st = Some t -> t < nextTimer st).

End Observer.

End LogicUtil.

(** ** A cleared flag *)

(** The flag under a key reads as false: the key holds "false" whenever
    the storage can be read. *)
Definition cleared {Dom : Type} (key : string) (p : Page Dom) : Prop :=
  accessible (localStorage p) = true ->
  items (localStorage p) !! key = Some "false".

(** ** A small document for concrete runs *)

Module DomSample.

Record Button := {
  b_span : option string;        (* the text of its span, when it has one *)
  b_pressed : option string;     (* its aria-pressed attribute *)
  b_text : string;               (* its textContent *)
}.

Record Doc := {
  doc_buttons : list Button;
  doc_editor : option Dom.codeUnits;   (* the innerText of the prompt editor *)
  doc_mentions : nat;            (* the number of canvas mentions *)
  doc_tools : bool;              (* whether there is a tools button *)
}.

(** Elements are numbers: a button is its position in the document; the
    editor, the tools button, the body and the mentions have numbers of
    their own. *)
Definition editorEl : nat := 1000.
Definition toolsEl : nat := 1001.
Definition bodyEl : nat := 1002.
Definition mentionEl : nat := 2000.

(** The code units of a text of ASCII characters. *)
Definition ofAscii (s : string) : Dom.codeUnits :=
  map N_of_ascii (list_ascii_of_string s).

Definition press (b : Button) : Button :=
  {| b_span := b_span b; b_pressed := Some "true"; b_text := b_text b |}.

(** A click on a button presses it; no other event changes the document. *)
Definition react (e : nat) (type : string) (d : Doc) : Doc :=
  if String.eqb type "click" then
    {| doc_buttons := alter press e (doc_buttons d);
       doc_editor := doc_editor d; doc_mentions := doc_mentions d;
       doc_tools := doc_tools d |}
  else d.

Definition elapse (ms : Z) (p : Page Doc) : Page Doc := p.

Definition buttons (d : Doc) : list nat := seq 0 (length (doc_buttons d)).
Definition spanText (e : nat) (d : Doc) : option string :=
  match doc_buttons d !! e with
  | Some b => b_span b
  | None => None
  end.
Definition getAttribute (e : nat) (name : string) (d : Doc) : option string :=
  if String.eqb name "aria-pressed" then
    match doc_buttons d !! e with
    | Some b => b_pressed b
    | None => None
    end
  else None.
Definition textContent (e : nat) (d : Doc) : string :=
  match doc_buttons d !! e with
  | Some b => b_text b
  | None => ""
  end.
Definition innerText (e : nat) (d : Doc) : Dom.codeUnits := default [] (doc_editor d).
Definition canvasMentions (d : Doc) : list nat := replicate (doc_mentions d) mentionEl.
Definition promptEditor (d : Doc) : option nat :=
  match doc_editor d with
  | Some _ => Some editorEl
  | None => None
  end.
Definition toolsButton (d : Doc) : option nat :=
  if doc_tools d then Some toolsEl else None.
Definition body (d : Doc) : option nat := Some bodyEl.

Definition pageOf (url host : string) (stored : gmap string string) (d : Doc)
    : Page Doc :=
  {| loc_href := url; loc_hostname := host;
     localStorage := {| items := stored; accessible := true; writable := true |};
     navEntries := Normal ["navigate"]; readyState := "complete";
     console := []; dom := d |}.

(** A Grok page with a Think button that is not pressed. *)
Definition thinkOff : Doc :=
  {| doc_buttons :=
       [{| b_span := Some "Search"; b_pressed := None; b_text := "Search" |};
        {| b_span := Some "Think"; b_pressed := Some "false"; b_text := "Think" |}];
     doc_editor := None; doc_mentions := 0; doc_tools := false |}.

Definition grokFresh : Page Doc := pageOf "https://grok.com/" "grok.com" ∅ thinkOff.
Definition grokFlagged : Page Doc :=
  pageOf "https://grok.com/" "grok.com" {[ "grok-thinking-enabled" := "true" ]}
         thinkOff.

(** ChatGPT pages: one where a prompt is being written, one where the
    canvas is on. *)
Definition writing : Doc :=
  {| doc_buttons := []; doc_editor := Some (ofAscii " Hello "); doc_mentions := 0;
     doc_tools := true |}.
Definition canvasOn : Doc :=
  {| doc_buttons := []; doc_editor := Some []; doc_mentions := 1;
     doc_tools := true |}.

(** An editor that holds a no-break space, a space, an ideographic space
    and a byte order mark. *)
Definition blank : Doc :=
  {| doc_buttons := []; doc_editor := Some [0x00A0; 0x0020; 0x3000; 0xFEFF]%N;
     doc_mentions := 0; doc_tools := true |}.

Definition chatWriting : Page Doc :=
  pageOf "https://chatgpt.com/" "chatgpt.com" ∅ writing.
Definition chatBlank : Page Doc :=
  pageOf "https://chatgpt.com/" "chatgpt.com" ∅ blank.
Definition chatCanvasOn : Page Doc :=
  pageOf "https://chatgpt.com/" "chatgpt.com" ∅ canvasOn.

Definition grokBase : Handler Doc := Dom.grokBase.
Definition chatGPTBase : Handler Doc := Dom.chatGPTBase.

Definition startOn (p : Page Doc) : @Dom.run Doc nat := Dom.Run p [].

End DomSample.

(** ** Concrete runs of the observer *)

Module ObserverSample.
Import LogicUtil.

(** A batch is a number here. Two batches arrive while the observer is
    connected. *)
Definition twoBatches : list (@observerStep nat) :=
  [StepStart; StepMutate 1; StepMutate 2].

End ObserverSample.

(** ** Concrete runs of [clickElement] *)

Module ClickSample.
(** A page on which no element is ever found. *)
Definition nothingFound : string -> nat -> option nat := fun _ _ => None.
Definition clickWorks : nat -> nat -> completion unit * nat :=
  fun _ s => (Normal tt, s).
Definition start : @LogicUtil.cworld nat nat := LogicUtil.CWorld 0 [].
End ClickSample.

(** ** Concrete handler lists *)

Module HandlersSample.
Import Example.

(** [GoogleAIStudioHandler]: the configuration its constructor passes on,
    the [enableFeatures] of the base class, which it does not redefine, and
    its own [initialize]. *)
Definition studioConfig : ConfigArg :=
  {| arg_hostname := Some "aistudio.google.com";
     arg_storageKey := Some "googleaistudio-menus-enabled";
     arg_urlPatterns := Some [MString "aistudio.google.com/"];
     arg_defaultDelays := Some [1000; 2000; 3000; 5000]%Z |}.

Definition studioBase : Handler unit :=
  {| config := constructor studioConfig;
     enableFeatures := enableFeatures_base |}.

Definition googleAIStudioHandler : HandlerObject unit :=
  {| as_handler := studioBase; its_initialize := StudioInitialize |}.

(** A handler for the same pages that inherits [initialize]. *)
Definition studioPlain : HandlerObject unit := inheriting studioBase.

(** The ChatGPT handler, with the [enableFeatures] of the base class in the
    place of its own. *)
Definition chatGPTHandler : Handler unit :=
  {| config := constructor Dom.chatGPTConfig;
     enableFeatures := enableFeatures_base |}.

(** A list as the scripts fill it: the handlers of three sites and a
    second handler for Grok pages, which shares the key of the first. *)
Definition registered : list (HandlerObject unit) :=
  [inheriting chatGPTHandler; inheriting grokHandler; googleAIStudioHandler;
   inheriting specHandler].

(** A list with handlers for AI Studio pages on both sides of
    [GoogleAIStudioHandler]. *)
Definition aroundStudio : list (HandlerObject unit) :=
  [inheriting grokHandler; studioPlain; googleAIStudioHandler; studioPlain].

Definition contentOf (p : Page unit) : Content unit :=
  {| c_runtime := runtimeOf p; studioObservers := 0 |}.

(** An AI Studio page where the flag was left set. *)
Definition onStudio : Page unit :=
  pageOf "https://aistudio.google.com/prompts/new_chat" "aistudio.google.com"
         (storageOf {[ "googleaistudio-menus-enabled" := "true" ]} true true)
         (Normal ["navigate"]) "complete".

(** The site changes the URL without loading a page. *)
Definition pushState (url : string) (c : Content unit) : Content unit :=
  {| c_runtime :=
       on_page (fun p =>
                  {| loc_href := url; loc_hostname := loc_hostname p;
                     localStorage := localStorage p; navEntries := navEntries p;
                     readyState := readyState p; console := console p;
                     dom := dom p |})
               (c_runtime c);
     studioObservers := studioObservers c |}.
End HandlersSample.

(** * Properties *)

Local Open Scope list_scope.

(** ** Counting in traces *)

Lemma invocations_app t1 t2 :
  invocations (t1 ++ t2) = invocations t1 + invocations t2.
Proof. unfold invocations. by rewrite filter_app, length_app. Qed.

Lemma guardEvals_app t1 t2 :
  guardEvals (t1 ++ t2) = guardEvals t1 + guardEvals t2.
Proof. unfold guardEvals. by rewrite filter_app, length_app. Qed.

Lemma loggedErrors_app t1 t2 :
  loggedErrors (t1 ++ t2) = loggedErrors t1 + loggedErrors t2.
Proof. unfold loggedErrors. by rewrite filter_app, length_app. Qed.

Lemma slept_app t1 t2 : slept (t1 ++ t2) = (slept t1 + slept t2)%Z.
Proof.
  unfold slept. induction t1 as [|e t1 IH]; simpl; [done|].
  rewrite IH. lia.
Qed.

Lemma script_counts ds : forall rs,
  length rs = length ds ->
  invocations (script ds rs) = length ds /\
  slept (script ds rs) = sumZ ds /\
  loggedErrors (script ds rs) = length (filter is_throw rs) /\
  guardEvals (script ds rs) = 0.
Proof.
  induction ds as [|d ds IH]; intros [|r rs] Hlen; simpl in Hlen; try done.
  destruct (IH rs) as (Hi & Hs & Hl & Hg); [lia|].
  cbn [script]. unfold attempt_events.
  change (EvSleep d :: EvInvoke :: ?l) with ([EvSleep d; EvInvoke] ++ l).
  rewrite <- !app_assoc.
  rewrite !invocations_app, !slept_app, !loggedErrors_app, !guardEvals_app.
  rewrite Hi, Hs, Hl, Hg.
  destruct r; cbn; repeat split; try lia; fold (sumZ ds); lia.
Qed.

Section SchedulerFacts.
Context {St : Type} (elapse : Z -> St -> St).
Implicit Types (a : action St) (w : world St) (D : list Z).

Lemma outcomes_length a D : forall s, length (outcomes elapse a D s) = length D.
Proof.
  induction D as [|d D IH]; intros s; simpl; [done|].
  destruct (a (elapse d s)) as [r s']. simpl. by rewrite IH.
Qed.

Lemma made_le (outs : list (completion jsval)) : made outs <= length outs.
Proof.
  induction outs as [|r rs IH]; simpl; [lia|].
  destruct (succeeded r); lia.
Qed.

(** The loop, in one equation: it answers whether some attempt succeeded,
    and its events are those of the attempts up to the first success. *)
Lemma attempts_run a D : forall w,
  let outs := outcomes elapse a D (page w) in
  fst (attempts elapse a D w) = existsb succeeded outs /\
  trace (snd (attempts elapse a D w)) =
    trace w ++ script (take (made outs) D) (take (made outs) outs).
Proof.
  induction D as [|d D IH]; intros w; cbn [outcomes attempts].
  - simpl. split; [done|]. by rewrite app_nil_r.
  - unfold invoke, waitFor, emit. cbn [page trace].
    destruct (a (elapse d (page w))) as [r s] eqn:Ha.
    cbn [made existsb]. destruct r as [v|e]; cbn [succeeded].
    + destruct (truthy v) eqn:Hv; cbn [fst snd trace orb].
      * split; [done|]. cbn. by rewrite <- app_assoc.
      * match goal with |- context [attempts elapse a D ?w0] =>
          destruct (IH w0) as [IH1 IH2] end.
        cbn [page trace] in IH1, IH2. rewrite IH1, IH2.
        split; [done|]. cbn. by rewrite <- !app_assoc.
    + cbn [page trace].
      match goal with |- context [attempts elapse a D ?w0] =>
        destruct (IH w0) as [IH1 IH2] end.
      cbn [page trace] in IH1, IH2. rewrite IH1, IH2.
      split; [done|]. cbn. by rewrite <- !app_assoc.
Qed.

(** The attempts made when the first success is the [k]-th outcome. *)
Lemma made_first_success (outs : list (completion jsval)) : forall k,
  1 <= k ->
  (forall i r, i < k - 1 -> outs !! i = Some r -> succeeded r = false) ->
  (exists r, outs !! (k - 1) = Some r /\ succeeded r = true) ->
  made outs = k /\ existsb succeeded outs = true.
Proof.
  induction outs as [|r rs IH]; intros k Hk Hfail [r' [Hr' Hs]].
  - by rewrite lookup_nil in Hr'.
  - destruct (decide (k = 1)) as [->|Hne].
    + simpl in Hr'. injection Hr' as ->. simpl. by rewrite Hs.
    + assert (succeeded r = false) as Hr by (apply (Hfail 0); [lia|done]).
      simpl. rewrite Hr.
      destruct (IH (k - 1)) as [Hm He].
      * lia.
      * intros i r0 Hi Hl. apply (Hfail (S i)); [lia|done].
      * exists r'. replace (k - 1) with (S (k - 1 - 1)) in Hr' by lia. done.
      * rewrite Hm, He. split; [lia|done].
Qed.

Lemma made_all_fail (outs : list (completion jsval)) :
  Forall (fun r => succeeded r = false) outs ->
  made outs = length outs /\ existsb succeeded outs = false.
Proof.
  induction 1 as [|r rs Hr _ [IH1 IH2]]; simpl; [done|].
  rewrite Hr, IH1, IH2. done.
Qed.

(** Once the guard has let it start, the scheduler is the loop. *)
Lemma tryWithDelays_started a D vf w :
  guard_holds vf (page w) ->
  let outs := outcomes elapse a D (page w) in
  fst (tryWithDelays elapse a D vf w) = Normal (existsb succeeded outs) /\
  trace (snd (tryWithDelays elapse a D vf w)) =
    trace w ++ guard_events vf
      ++ script (take (made outs) D) (take (made outs) outs).
Proof.
  intros Hg outs. unfold tryWithDelays. destruct vf as [g|]; simpl in Hg.
  - destruct Hg as (v & Hv & Ht).
    change (page (emit EvGuard w)) with (page w). rewrite Hv, Ht.
    destruct (attempts_run a D (emit EvGuard w)) as [H1 H2].
    destruct (attempts elapse a D (emit EvGuard w)) as [b w'].
    cbn [fst snd] in *. cbn [emit page trace] in H1, H2.
    rewrite H1, H2. split; [done|]. cbn. by rewrite <- app_assoc.
  - destruct (attempts_run a D w) as [H1 H2].
    destruct (attempts elapse a D w) as [b w'].
    cbn [fst snd] in *. rewrite H1, H2. done.
Qed.

End SchedulerFacts.

(** ** The retry scheduler *)

(** C1, as the code has it. [tryWithDelays] calls the guard exactly once,
    before anything else. When the guard answers a falsy value the scheduler
    returns false with no sleep and no call of the action. When it answers a
    truthy value the run is the run of the scheduler without a guard: the
    guard is not consulted between attempts, so what it would answer later
    plays no part. *)
Theorem tryWithDelays_guard_once {St : Type} (elapse : Z -> St -> St)
    (a : action St) (D : list Z) (g : guard St) (w : world St) :
  let res := tryWithDelays elapse a D (Some g) w in
  guardEvals (trace (snd res)) = S (guardEvals (trace w)) /\
  (exists rest, trace (snd res) = trace w ++ EvGuard :: rest) /\
  (forall v, g (page w) = Normal v -> truthy v = false ->
     fst res = Normal false /\ trace (snd res) = trace w ++ [EvGuard]) /\
  (forall v, g (page w) = Normal v -> truthy v = true ->
     res = tryWithDelays elapse a D None (emit EvGuard w)).
Proof.
  intros res. subst res. unfold tryWithDelays.
  change (page (emit EvGuard w)) with (page w).
  destruct (g (page w)) as [v|e] eqn:Hg.
  - destruct (truthy v) eqn:Hv.
    + destruct (attempts_run elapse a D (emit EvGuard w)) as [_ H2].
      destruct (attempts elapse a D (emit EvGuard w)) as [b w'].
      cbn [fst snd] in *. cbn [emit page trace] in H2.
      destruct (script_counts
                  (take (made (outcomes elapse a D (page w))) D)
                  (take (made (outcomes elapse a D (page w)))
                        (outcomes elapse a D (page w)))) as (_ & _ & _ & Hz).
      { rewrite !length_take, outcomes_length. done. }
      split; [|split; [|split]].
      * rewrite H2, !guardEvals_app, Hz.
        change (guardEvals [EvGuard]) with 1. lia.
      * eexists. rewrite H2, <- app_assoc. reflexivity.
      * intros v' Hv'. injection Hv' as <-. congruence.
      * done.
    + cbn [fst snd emit trace]. split; [|split; [|split]].
      * rewrite guardEvals_app. change (guardEvals [EvGuard]) with 1. lia.
      * by exists [].
      * done.
      * intros v' Hv'. injection Hv' as <-. congruence.
  - cbn [fst snd emit trace]. split; [|split; [|split]]; try done.
    + rewrite guardEvals_app. change (guardEvals [EvGuard]) with 1. lia.
    + by exists [].
Qed.

(** C2. When the guard lets the scheduler start and the action fails on
    the first [k-1] attempts and succeeds on the [k]-th, with [k] at most
    the number of delays, [tryWithDelays] returns true after exactly [k]
    calls of the action; it has slept the sum of the first [k] delays, and
    its events are, for each of these attempts in order, the sleep of its
    delay and then the call. *)
Theorem tryWithDelays_succeeds_at {St : Type} (elapse : Z -> St -> St)
    (a : action St) (D : list Z) (vf : option (guard St)) (w : world St)
    (k : nat) :
  guard_holds vf (page w) ->
  1 <= k <= length D ->
  (forall i r, i < k - 1 ->
     outcomes elapse a D (page w) !! i = Some r -> succeeded r = false) ->
  (exists r, outcomes elapse a D (page w) !! (k - 1) = Some r /\
             succeeded r = true) ->
  let res := tryWithDelays elapse a D vf w in
  fst res = Normal true /\
  invocations (trace (snd res)) = invocations (trace w) + k /\
  slept (trace (snd res)) = (slept (trace w) + sumZ (take k D))%Z /\
  trace (snd res) =
    trace w ++ guard_events vf
      ++ script (take k D) (take k (outcomes elapse a D (page w))).
Proof.
  intros Hg Hk Hfail Hsucc res. subst res.
  destruct (tryWithDelays_started elapse a D vf w Hg) as [H1 H2].
  destruct (made_first_success _ k ltac:(lia) Hfail Hsucc) as [Hm He].
  rewrite Hm in H2. rewrite He in H1.
  destruct (script_counts (take k D)
              (take k (outcomes elapse a D (page w)))) as (Hi & Hs & _ & _).
  { rewrite !length_take, outcomes_length. done. }
  rewrite length_take in Hi.
  assert (guardEvals_free : invocations (guard_events vf) = 0
                            /\ slept (guard_events vf) = 0%Z).
  { destruct vf; done. }
  destruct guardEvals_free as [Gi Gs].
  repeat split; [done| | |done].
  - rewrite H2, !invocations_app, Gi, Hi. lia.
  - rewrite H2, !slept_app, Gs, Hs. lia.
Qed.

(** C3. When the guard lets the scheduler start and no attempt succeeds
    (each returns a falsy value or throws), [tryWithDelays] returns false, a
    value and not an exception, after exactly as many calls of the action as
    there are delays; it has slept through all of them, and every exception
    was logged, once. *)
Theorem tryWithDelays_exhausted {St : Type} (elapse : Z -> St -> St)
    (a : action St) (D : list Z) (vf : option (guard St)) (w : world St) :
  guard_holds vf (page w) ->
  Forall (fun r => succeeded r = false) (outcomes elapse a D (page w)) ->
  let res := tryWithDelays elapse a D vf w in
  fst res = Normal false /\
  invocations (trace (snd res)) = invocations (trace w) + length D /\
  slept (trace (snd res)) = (slept (trace w) + sumZ D)%Z /\
  loggedErrors (trace (snd res)) =
    loggedErrors (trace w)
      + length (filter is_throw (outcomes elapse a D (page w))).
Proof.
  intros Hg Hall res. subst res.
  destruct (tryWithDelays_started elapse a D vf w Hg) as [H1 H2].
  destruct (made_all_fail _ Hall) as [Hm He].
  rewrite Hm, outcomes_length in H2. rewrite He in H1.
  rewrite (take_ge D), (take_ge (outcomes elapse a D (page w))) in H2
    by (rewrite ?outcomes_length; lia).
  destruct (script_counts D (outcomes elapse a D (page w)))
    as (Hi & Hs & Hl & _); [apply outcomes_length|].
  assert (invocations (guard_events vf) = 0 /\ slept (guard_events vf) = 0%Z
          /\ loggedErrors (guard_events vf) = 0) as (Gi & Gs & Gl).
  { destruct vf; done. }
  repeat split; [done| | |].
  - rewrite H2, !invocations_app, Gi, Hi. lia.
  - rewrite H2, !slept_app, Gs, Hs. lia.
  - rewrite H2, !loggedErrors_app, Gl, Hl. lia.
Qed.

(** C8. With an empty delay sequence the action is never called and
    nothing is slept, whatever the action and the guard; the scheduler
    returns false whenever the guard returns. *)
Theorem tryWithDelays_no_delays {St : Type} (elapse : Z -> St -> St)
    (a : action St) (vf : option (guard St)) (w : world St) :
  guard_returns vf (page w) ->
  let res := tryWithDelays elapse a [] vf w in
  fst res = Normal false /\
  invocations (trace (snd res)) = invocations (trace w) /\
  slept (trace (snd res)) = slept (trace w).
Proof.
  intros Hg res. subst res. unfold tryWithDelays.
  destruct vf as [g|]; cbn [attempts fst snd]; [|done].
  destruct Hg as [v Hv]. change (page (emit EvGuard w)) with (page w).
  rewrite Hv. destruct (truthy v); cbn [fst snd emit trace];
    rewrite invocations_app, slept_app;
    change (invocations [EvGuard]) with 0; change (slept [EvGuard]) with 0%Z;
    repeat split; lia.
Qed.

Import Example.

Lemma tryWithDelays_guard_once_witness :
  guardEvals
    (trace (snd (tryWithDelays still succeedsThird delays (Some untilTwo) start)))
  = 1.
Proof.
  exact (proj1 (tryWithDelays_guard_once still succeedsThird delays untilTwo start)).
Defined.

(** C1, as stated, fails. The guard [untilTwo] holds before the first two
    attempts and is false once two attempts have been made; with four delays
    and an action that succeeds on its third attempt, [tryWithDelays] makes
    the third attempt and returns true, where a scheduler that evaluates the
    guard before each attempt ([runWithBackoff]) stops after two calls and
    returns false. *)
Lemma tryWithDelays_ignores_later_guard :
  let res := tryWithDelays still succeedsThird delays (Some untilTwo) start in
  let spec := runWithBackoff still succeedsThird delays untilTwo start in
  length delays = 4 /\
  untilTwo 0 = Normal (JBool true) /\
  untilTwo 1 = Normal (JBool true) /\
  untilTwo 2 = Normal (JBool false) /\
  fst res = Normal true /\
  invocations (trace (snd res)) = 3 /\
  fst spec = Normal false /\
  invocations (trace (snd spec)) = 2 /\
  ~ (fst res = Normal false /\ invocations (trace (snd res)) = 2).
Proof.
  repeat split; try reflexivity.
  intros [H _]. vm_compute in H. discriminate H.
Qed.

Lemma tryWithDelays_succeeds_at_witness :
  let res := tryWithDelays still succeedsThird delays (Some untilTwo) start in
  fst res = Normal true /\
  invocations (trace (snd res)) = 3 /\
  slept (trace (snd res)) = 6000%Z /\
  trace (snd res) =
    [EvGuard; EvSleep 1000; EvInvoke; EvSleep 2000; EvInvoke;
     EvSleep 3000; EvInvoke].
Proof.
  apply (tryWithDelays_succeeds_at still succeedsThird delays
           (Some untilTwo) start 3).
  - exists (JBool true). split; reflexivity.
  - simpl. lia.
  - intros i r Hi Hl.
    destruct i as [|[|i]]; [| |lia]; simpl in Hl; injection Hl as <-; reflexivity.
  - exists (Normal (JBool true)). split; reflexivity.
Defined.

Lemma tryWithDelays_exhausted_witness :
  let res := tryWithDelays still neverSucceeds delays (Some alwaysTrue) start in
  fst res = Normal false /\
  invocations (trace (snd res)) = 4 /\
  slept (trace (snd res)) = 11000%Z /\
  loggedErrors (trace (snd res)) = 2.
Proof.
  apply (tryWithDelays_exhausted still neverSucceeds delays (Some alwaysTrue) start).
  - exists (JBool true). split; reflexivity.
  - repeat constructor.
Defined.

Lemma tryWithDelays_no_delays_witness :
  let res := tryWithDelays still succeedsThird [] (Some alwaysFalse) start in
  fst res = Normal false /\
  invocations (trace (snd res)) = 0 /\
  slept (trace (snd res)) = 0%Z.
Proof.
  apply (tryWithDelays_no_delays still succeedsThird (Some alwaysFalse) start).
  exists (JBool false). reflexivity.
Defined.

(** ** Strings and patterns *)

Lemma sapp_cons (x : ascii) (a b : string) :
  String x a +:+ b = String x (a +:+ b).
Proof. reflexivity. Qed.

Lemma sapp_nil_l (b : string) : "" +:+ b = b.
Proof. reflexivity. Qed.

Ltac ssimpl := rewrite ?sapp_cons, ?sapp_nil_l in *.

Lemma sapp_assoc (a b c : string) : (a +:+ b) +:+ c = a +:+ (b +:+ c).
Proof. induction a as [|x a IH]; ssimpl; [done|]. by rewrite IH. Qed.

Lemma sapp_nil_r (a : string) : a +:+ "" = a.
Proof. induction a as [|x a IH]; ssimpl; [done|]. by rewrite IH. Qed.

Lemma snoc_app (l : string) (c : ascii) (m : string) :
  snoc l c +:+ m = l +:+ String c m.
Proof. unfold snoc. by rewrite sapp_assoc. Qed.

Lemma prefix_spec (pat : string) : forall s,
  String.prefix pat s = true <-> exists post, s = pat +:+ post.
Proof.
  induction pat as [|a pat IH]; intros [|b s]; simpl.
  - split; [|done]. intros _. by exists "".
  - split; [|done]. intros _. by exists (String b s).
  - split; [done|]. intros [post H]. ssimpl. discriminate H.
  - destruct (ascii_dec a b) as [->|Hne].
    + rewrite IH. split; intros [post H]; exists post; ssimpl; congruence.
    + split; [done|]. intros [post H]. ssimpl. congruence.
Qed.

(** [includes] decides containment. *)
Lemma includes_spec (pat : string) : forall s,
  includes s pat = true <-> exists pre post, s = pre +:+ pat +:+ post.
Proof.
  induction s as [|c s IH]; cbn [includes]; rewrite orb_true_iff, prefix_spec.
  - split.
    + intros [[post H]|H]; [|done]. by exists "", post.
    + intros (pre & post & H). left.
      destruct pre; ssimpl; [|discriminate H]. by exists post.
  - rewrite IH. split.
    + intros [[post H]|(pre & post & H)].
      * by exists "", post.
      * exists (String c pre), post. ssimpl. by rewrite H.
    + intros (pre & post & H). destruct pre as [|c' pre]; ssimpl.
      * left. by exists post.
      * right. exists pre, post. congruence.
Qed.

(** The matcher finds exactly the matches of the pattern at the current
    position that its continuation accepts. *)
Lemma rmatch_spec (r : regex) : forall k l s,
  rmatch r k l s = true <->
  exists m t, s = m +:+ t /\ matches r l m t /\ k (l +:+ m) t = true.
Proof.
  induction r as [c| |r1 IH1 r2 IH2|r1 IH1 r2 IH2|r1 IH1| |];
    intros k l s; cbn [rmatch].
  - destruct s as [|c' s].
    + split; [done|]. intros (m & t & Hs & Hm & _).
      inversion Hm; subst. ssimpl. discriminate Hs.
    + destruct (Ascii.eqb_spec c c') as [->|Hne].
      * split.
        -- intros Hk. exists (String c' ""), s. repeat split; [constructor|done].
        -- intros (m & t & Hs & Hm & Hk). inversion Hm; subst.
           ssimpl. injection Hs as <-. done.
      * split; [done|]. intros (m & t & Hs & Hm & _).
        inversion Hm; subst. ssimpl. congruence.
  - split.
    + intros Hk. exists "", s. rewrite sapp_nil_r. repeat split; [constructor|done].
    + intros (m & t & Hs & Hm & Hk). inversion Hm; subst.
      rewrite sapp_nil_r in Hk. done.
  - rewrite IH1. split.
    + intros (m1 & t1 & Hs & Hm1 & Hk). apply IH2 in Hk.
      destruct Hk as (m2 & t & Ht1 & Hm2 & Hk). subst t1.
      exists (m1 +:+ m2), t. rewrite !sapp_assoc in *.
      repeat split; [done|by constructor|done].
    + intros (m & t & Hs & Hm & Hk). inversion Hm; subst.
      exists m1, (m2 +:+ t). rewrite sapp_assoc. repeat split; [done|].
      apply IH2. exists m2, t. rewrite sapp_assoc. done.
  - rewrite orb_true_iff, IH1, IH2. split.
    + intros [(m & t & Hs & Hm & Hk)|(m & t & Hs & Hm & Hk)];
        exists m, t; repeat split; try done; by constructor.
    + intros (m & t & Hs & Hm & Hk). inversion Hm; subst; [left|right]; eauto.
  - rewrite orb_true_iff, IH1. split.
    + intros [(m & t & Hs & Hm & Hk)|Hk].
      * exists m, t. repeat split; try done. by apply MOptSome.
      * exists "", s. rewrite sapp_nil_r. repeat split; [apply MOptNone|done].
    + intros (m & t & Hs & Hm & Hk). inversion Hm; subst.
      * left. eauto.
      * right. rewrite sapp_nil_r in Hk. done.
  - destruct l as [|c l].
    + split.
      * intros Hk. exists "", s. repeat split; [constructor|done].
      * intros (m & t & Hs & Hm & Hk). inversion Hm; subst. done.
    + split; [done|]. intros (m & t & Hs & Hm & _). inversion Hm.
  - destruct s as [|c s].
    + split.
      * intros Hk. exists "", "". rewrite !sapp_nil_r.
        repeat split; [constructor|done].
      * intros (m & t & Hs & Hm & Hk). inversion Hm; subst.
        rewrite sapp_nil_r in Hk. done.
    + split; [done|]. intros (m & t & Hs & Hm & _).
      inversion Hm; subst. ssimpl. discriminate Hs.
Qed.

Lemma search_spec (r : regex) : forall s l,
  search r l s = true <->
  exists l' m t, s = l' +:+ m +:+ t /\ matches r (l +:+ l') m t.
Proof.
  induction s as [|c s IH]; intros l; cbn [search];
    rewrite orb_true_iff, rmatch_spec.
  - split.
    + intros [(m & t & Hs & Hm & _)|H]; [|done].
      exists "", m, t. rewrite sapp_nil_r. done.
    + intros (l' & m & t & Hs & Hm). left.
      destruct l'; ssimpl; [|discriminate Hs]. rewrite sapp_nil_r in Hm.
      exists m, t. done.
  - rewrite IH. split.
    + intros [(m & t & Hs & Hm & _)|(l' & m & t & Hs & Hm)].
      * exists "", m, t. rewrite sapp_nil_r. done.
      * exists (String c l'), m, t. unfold snoc in Hm.
        rewrite sapp_assoc in Hm. ssimpl. rewrite Hs. done.
    + intros (l' & m & t & Hs & Hm). destruct l' as [|c' l']; ssimpl.
      * left. rewrite sapp_nil_r in Hm. exists m, t. done.
      * right. injection Hs as <- Hs.
        exists l', m, t. unfold snoc. rewrite sapp_assoc. ssimpl. done.
Qed.

(** [test] decides whether the pattern matches somewhere in the text. *)
Lemma regex_test_spec (r : regex) (url : string) :
  regex_test r url = true <->
  exists l m t, url = l +:+ m +:+ t /\ matches r l m t.
Proof. unfold regex_test. rewrite search_spec. by ssimpl. Qed.

Lemma matcher_accepts_spec (url : string) (pattern : matcher) :
  matcher_accepts url pattern = true <-> matcher_matches url pattern.
Proof.
  destruct pattern as [s|r|v]; simpl.
  - apply includes_spec.
  - apply regex_test_spec.
  - done.
Qed.

(** ** The page matcher *)

(** C5. [isValidPage] answers true exactly when some matcher of the
    handler matches the URL of the page: a string matcher when the URL
    contains it, a pattern matcher when the pattern matches somewhere in the
    URL. With the matchers ["grok.com/new"] and [/grok\.com\/?$/] the URLs
    [https://grok.com/] and [https://grok.com/new] are accepted and
    [https://grok.com/other/path] is rejected. *)
Theorem isValidPage_some_matcher {Dom : Type} (h : Handler Dom) (p : Page Dom) :
  (isValidPage h p = true <->
   exists m, In m (urlPatterns (config h)) /\ matcher_matches (loc_href p) m) /\
  urlPatterns (config specHandler) =
    [MString "grok.com/new"; MRegExp Grok.root_pattern] /\
  isValidPage specHandler (visit "https://grok.com/") = true /\
  isValidPage specHandler (visit "https://grok.com/new") = true /\
  isValidPage specHandler (visit "https://grok.com/other/path") = false.
Proof.
  split; [|repeat split; vm_compute; reflexivity].
  unfold isValidPage. rewrite existsb_exists.
  split; intros (m & Hin & Hm); exists m; split; try done;
    by apply matcher_accepts_spec.
Qed.

Lemma isValidPage_some_matcher_witness :
  isValidPage specHandler (visit "https://grok.com/new") = true.
Proof.
  apply (proj1 (isValidPage_some_matcher specHandler (visit "https://grok.com/new"))).
  exists (MString "grok.com/new"). split; [left; reflexivity|].
  exists "https://", "". reflexivity.
Defined.

(** ** The storage adapter *)

Section StorageFacts.
Context {Dom : Type}.
Implicit Types (p : Page Dom) (h : Handler Dom).

Lemma setItem_succeeds key v st :
  (exists st', setItem key v st = Normal st') <->
  accessible st = true /\ writable st = true.
Proof.
  unfold setItem. destruct (accessible st), (writable st); split;
    try (intros [st' H]; discriminate H); try (intros [? ?]; discriminate);
    eauto.
Qed.

Lemma setStorageItem_written key value p p' :
  setStorageItem key value p = (true, p') ->
  accessible (localStorage p') = true /\
  items (localStorage p') =
    <[key := if value then "true" else "false"]> (items (localStorage p)) /\
  console p' = console p.
Proof.
  unfold setStorageItem, setItem.
  destruct (accessible (localStorage p)) eqn:Ha;
    [destruct (writable (localStorage p)) eqn:Hw|]; intros H;
    inversion H; subst; clear H; cbn. done.
Qed.

Lemma isPageRefreshed_reload p :
  isPageRefreshed p = true <->
  exists rest, navEntries p = Normal ("reload" :: rest).
Proof.
  unfold isPageRefreshed. destruct (navEntries p) as [[|first rest]|e].
  - split; [done|]. intros [rest H]. discriminate H.
  - rewrite String.eqb_eq. split.
    + intros ->. by exists rest.
    + intros [rest' H]. by injection H.
  - split; [done|]. intros [rest H]. discriminate H.
Qed.

(** C7. [setStorageItem] returns true exactly when [localStorage.setItem]
    did not throw. On success the key holds the text of the boolean and
    nothing is logged. When the write throws, the exception is caught: the
    function returns false, a value, the storage is as it was and the
    error is on the console. [setFeatureEnabled] is [setStorageItem] on the
    handler's key. *)
Theorem setStorageItem_reports_write (key : string) (value : bool) p :
  let text := if value then "true" else "false" in
  let r := setStorageItem key value p in
  (fst r = true <-> exists st', setItem key text (localStorage p) = Normal st') /\
  (fst r = true ->
     items (localStorage (snd r)) !! key = Some text /\
     console (snd r) = console p) /\
  (fst r = false ->
     exists e, setItem key text (localStorage p) = Throw e /\
               localStorage (snd r) = localStorage p /\
               console (snd r) = console p ++ [LogSetError key e]) /\
  (forall h, setFeatureEnabled h value p =
             setStorageItem (storageKey (config h)) value p).
Proof.
  intros text r. subst r. unfold setStorageItem. fold text.
  destruct (setItem key text (localStorage p)) as [st'|e] eqn:Hset; cbn.
  - split; [|split; [|split]]; try done.
    + split; eauto.
    + intros _. split; [|done].
      unfold setItem in Hset.
      destruct (accessible (localStorage p)); [|done].
      destruct (writable (localStorage p)); [|done].
      injection Hset as <-. cbn. by rewrite lookup_insert_eq.
  - split; [|split; [|split]]; try done.
    + split; [done|]. intros [st' H]. discriminate H.
    + intros _. by exists e.
Qed.

(** C10. A write that reports success is read back: after
    [setStorageItem(key, b)] has returned true, [getStorageItem(key, d)]
    returns [b] for every default [d] and leaves the page as it is. The
    write stores the text "true" or "false", and a stored text is read as
    true exactly when it is "true". *)
Theorem storage_round_trip (key : string) (b : bool) p p' :
  setStorageItem key b p = (true, p') ->
  (forall d, getStorageItem key d p' = (b, p')) /\
  items (localStorage p') !! key = Some (if b then "true" else "false") /\
  (forall (q : Page Dom) v d,
     getItem key (localStorage q) = Normal (Some v) ->
     (fst (getStorageItem key d q) = true <-> v = "true")).
Proof.
  intros Hset. destruct (setStorageItem_written _ _ _ _ Hset) as (Ha & Hi & _).
  assert (items (localStorage p') !! key = Some (if b then "true" else "false"))
    as Hl by (rewrite Hi; apply lookup_insert_eq).
  split; [|split; [done|]].
  - intros d. unfold getStorageItem, getItem. rewrite Ha, Hl.
    by destruct b.
  - intros q v d Hget. unfold getStorageItem. rewrite Hget. cbn.
    apply String.eqb_eq.
Qed.

(** C4. On a hard reload (the first navigation entry has type "reload")
    [getFeatureEnabled] writes false under the handler's key, as
    [setStorageItem] does, and then returns false, whatever was stored.
    On any other load it returns the stored boolean, and false when the
    key holds nothing; the page is left as it is. *)
Theorem getFeatureEnabled_reload_reset h p :
  let key := storageKey (config h) in
  let r := getFeatureEnabled h p in
  (isPageRefreshed p = true ->
     fst r = false /\
     snd r = snd (setStorageItem key false p) /\
     (accessible (localStorage p) = true ->
      writable (localStorage p) = true ->
      items (localStorage (snd r)) !! key = Some "false")) /\
  (isPageRefreshed p = false ->
     (forall b : bool, getItem key (localStorage p)
                = Normal (Some (if b then "true" else "false")) ->
                r = (b, p)) /\
     (getItem key (localStorage p) = Normal None -> r = (false, p))).
Proof.
  intros key r. subst r. unfold getFeatureEnabled, setFeatureEnabled. fold key.
  split; intros Hr; rewrite Hr.
  - destruct (setStorageItem key false p) as [ok p'] eqn:Hset.
    cbn [fst snd]. split; [done|split; [done|]].
    intros Ha Hw. unfold setStorageItem, setItem in Hset.
    rewrite Ha, Hw in Hset. injection Hset as _ <-. cbn.
    by rewrite lookup_insert_eq.
  - unfold getStorageItem. split.
    + intros b Hget. rewrite Hget. by destruct b.
    + intros Hget. by rewrite Hget.
Qed.

End StorageFacts.

(** ** Initialization of a handler *)

Section HandlerFacts.
Context {Dom : Type}.
Implicit Types (h : Handler Dom) (rt : Runtime Dom) (l : Listener Dom).

Lemma run_listeners_calls (ls : list (Listener Dom)) : forall rt,
  schedulerCalls (foldl (fun acc l => run_listener l acc) rt ls) =
  schedulerCalls rt ++ map listener_task ls.
Proof.
  induction ls as [|l ls IH]; intros rt; cbn [foldl map].
  - by rewrite app_nil_r.
  - rewrite IH. destruct l as [h]. cbn. by rewrite <- app_assoc.
Qed.

(** When [load] fires, each registered listener makes its call, once. *)
Lemma dispatchLoad_calls rt :
  schedulerCalls (dispatchLoad rt) =
  schedulerCalls rt ++ map listener_task (loadListeners rt).
Proof. unfold dispatchLoad. by rewrite run_listeners_calls. Qed.

(** C6. On a page that is the handler's ([isCurrentWebsite] holds),
    [initialize] returns true and first writes false under the handler's
    key. Then, on the page this write leaves: when the document is
    complete it calls the scheduler at once; otherwise it makes no call and
    registers a [load] listener, which makes the call, once, when [load]
    fires. The call has the handler's [enableFeatures] as its action, the
    handler's [defaultDelays] as its delays and [isValidPage] as its
    guard. *)
Theorem initialize_starts_scheduler h rt :
  isCurrentWebsite h (rt_page rt) = true ->
  let key := storageKey (config h) in
  let task := {| t_action := enableFeatures h;
                 t_delays := defaultDelays (config h);
                 t_guard := Some (isValidPage_guard h) |} in
  let rt1 := on_page (fun p => snd (setStorageItem key false p)) rt in
  let r := initialize h rt in
  fst r = true /\
  (forall p, isValidPage_guard h p = Normal (JBool (isValidPage h p))) /\
  (forall elapse w,
     run_task elapse task w =
     tryWithDelays elapse (enableFeatures h) (defaultDelays (config h))
                   (Some (isValidPage_guard h)) w) /\
  (accessible (localStorage (rt_page rt)) = true ->
   writable (localStorage (rt_page rt)) = true ->
   items (localStorage (rt_page (snd r))) !! key = Some "false") /\
  (readyState (rt_page rt) = "complete" ->
     snd r = runWithDelays h rt1 /\
     schedulerCalls (snd r) = schedulerCalls rt ++ [task] /\
     loadListeners (snd r) = loadListeners rt) /\
  (readyState (rt_page rt) <> "complete" ->
     snd r = addLoadListener (OnLoadRunWithDelays h) rt1 /\
     schedulerCalls (snd r) = schedulerCalls rt /\
     loadListeners (snd r) = loadListeners rt ++ [OnLoadRunWithDelays h] /\
     schedulerCalls (dispatchLoad (snd r)) =
       schedulerCalls rt ++ map listener_task (loadListeners rt) ++ [task]).
Proof.
  intros Hcur key task rt1 r. subst r. unfold initialize.
  rewrite Hcur. cbn [negb]. unfold setFeatureEnabled. fold key. fold rt1.
  assert (readyState (rt_page rt1) = readyState (rt_page rt)) as Hready.
  { unfold rt1, on_page, setStorageItem. cbn.
    destruct (setItem key "false" (localStorage (rt_page rt))); done. }
  assert (accessible (localStorage (rt_page rt)) = true ->
          writable (localStorage (rt_page rt)) = true ->
          items (localStorage (rt_page rt1)) !! key = Some "false") as Hflag.
  { intros Ha Hw. unfold rt1, on_page, setStorageItem, setItem. cbn.
    rewrite Ha, Hw. cbn. by rewrite lookup_insert_eq. }
  rewrite Hready.
  destruct (String.eqb_spec (readyState (rt_page rt)) "complete") as [Hc|Hc];
    cbn [fst snd]; (split; [done|split; [done|split; [done|split; [done|]]]]).
  - split; [|done]. intros _. done.
  - split; [done|]. intros _. split; [done|split; [done|split; [done|]]].
    rewrite dispatchLoad_calls. cbn. by rewrite map_app.
Qed.

(** *** The handler list and the mutation observer *)

Lemma initialize_keeps_location h rt :
  loc_href (rt_page (snd (initialize h rt))) = loc_href (rt_page rt) /\
  loc_hostname (rt_page (snd (initialize h rt))) = loc_hostname (rt_page rt) /\
  readyState (rt_page (snd (initialize h rt))) = readyState (rt_page rt).
Proof.
  unfold initialize.
  destruct (isCurrentWebsite h (rt_page rt)); cbn [negb]; [|done].
  assert (forall p, loc_href (snd (setFeatureEnabled h false p)) = loc_href p /\
                    loc_hostname (snd (setFeatureEnabled h false p)) = loc_hostname p /\
                    readyState (snd (setFeatureEnabled h false p)) = readyState p)
    as Hset.
  { intros p. unfold setFeatureEnabled, setStorageItem.
    destruct (setItem _ _ _); done. }
  destruct (Hset (rt_page rt)) as (H1 & H2 & H3).
  destruct (String.eqb _ "complete"); cbn; done.
Qed.

Lemma initialize_when_complete h rt :
  isCurrentWebsite h (rt_page rt) = true ->
  readyState (rt_page rt) = "complete" ->
  schedulerCalls (snd (initialize h rt)) =
  schedulerCalls rt ++ [runWithDelays_task h].
Proof.
  intros Hcur Hready. unfold initialize. rewrite Hcur. cbn [negb].
  assert (readyState (rt_page (on_page (fun p => snd (setFeatureEnabled h false p)) rt))
          = "complete") as ->.
  { rewrite <- Hready. unfold on_page, setFeatureEnabled, setStorageItem. cbn.
    destruct (setItem _ _ _); done. }
  done.
Qed.

Lemma isCurrentWebsite_location h (p q : Page Dom) :
  loc_href p = loc_href q -> loc_hostname p = loc_hostname q ->
  isCurrentWebsite h p = isCurrentWebsite h q.
Proof.
  intros H1 H2. unfold isCurrentWebsite, isValidPage. by rewrite H1, H2.
Qed.

Lemma initialize_when_loading h rt :
  isCurrentWebsite h (rt_page rt) = true ->
  readyState (rt_page rt) <> "complete" ->
  schedulerCalls (snd (initialize h rt)) = schedulerCalls rt /\
  loadListeners (snd (initialize h rt)) =
    loadListeners rt ++ [OnLoadRunWithDelays h].
Proof.
  intros Hcur Hready. unfold initialize. rewrite Hcur. cbn [negb].
  assert (readyState (rt_page (on_page (fun p => snd (setFeatureEnabled h false p)) rt))
          = readyState (rt_page rt)) as ->.
  { unfold on_page, setFeatureEnabled, setStorageItem. cbn.
    destruct (setItem _ _ _); done. }
  apply String.eqb_neq in Hready. rewrite Hready. done.
Qed.

Lemma initialize_listeners_complete h rt :
  readyState (rt_page rt) = "complete" ->
  loadListeners (snd (initialize h rt)) = loadListeners rt.
Proof.
  intros Hready. unfold initialize.
  destruct (isCurrentWebsite h (rt_page rt)); cbn [negb]; [|done].
  assert (readyState (rt_page (on_page (fun p => snd (setFeatureEnabled h false p)) rt))
          = "complete") as ->.
  { rewrite <- Hready. unfold on_page, setFeatureEnabled, setStorageItem. cbn.
    destruct (setItem _ _ _); done. }
  done.
Qed.

(** **** The loop over handlers that inherit [initialize] *)

(** On a complete document the loop calls the scheduler for every handler
    of the list whose [isCurrentWebsite] holds, in the order of the list:
    the list has no notion of a current handler. *)
Lemma initializeInherited_calls (handlers : list (Handler Dom)) : forall rt,
  readyState (rt_page rt) = "complete" ->
  schedulerCalls (initializeInherited handlers rt) =
  schedulerCalls rt ++
    map runWithDelays_task
        (List.filter (fun h => isCurrentWebsite h (rt_page rt)) handlers).
Proof.
  unfold initializeInherited.
  induction handlers as [|h hs IH]; intros rt Hready; cbn [foldl List.filter map].
  - by rewrite app_nil_r.
  - destruct (isCurrentWebsite h (rt_page rt)) eqn:Hcur.
    + destruct (initialize_keeps_location h rt) as (H1 & H2 & H3).
      rewrite IH by (by rewrite H3).
      rewrite (initialize_when_complete h rt Hcur Hready), <- app_assoc.
      cbn [map app].
      do 2 f_equal. f_equal. apply List.filter_ext. intros h'.
      by apply isCurrentWebsite_location.
    + by rewrite IH.
Qed.

Lemma initializeInherited_loading (handlers : list (Handler Dom)) : forall rt,
  readyState (rt_page rt) <> "complete" ->
  schedulerCalls (initializeInherited handlers rt) = schedulerCalls rt /\
  loadListeners (initializeInherited handlers rt) =
    loadListeners rt ++
      map OnLoadRunWithDelays
          (List.filter (fun h => isCurrentWebsite h (rt_page rt)) handlers).
Proof.
  unfold initializeInherited.
  induction handlers as [|h hs IH]; intros rt Hready; cbn [foldl List.filter map].
  - by rewrite app_nil_r.
  - destruct (isCurrentWebsite h (rt_page rt)) eqn:Hcur.
    + destruct (initialize_keeps_location h rt) as (H1 & H2 & H3).
      destruct (initialize_when_loading h rt Hcur Hready) as [Hc Hl].
      destruct (IH (snd (initialize h rt))) as [IHc IHl]; [by rewrite H3|].
      rewrite IHc, IHl, Hc, Hl, <- app_assoc. cbn [map app].
      split; [done|]. do 2 f_equal. f_equal. apply List.filter_ext. intros h'.
      by apply isCurrentWebsite_location.
    + by apply IH.
Qed.

Lemma initializeInherited_listeners_complete (handlers : list (Handler Dom)) :
  forall rt,
  readyState (rt_page rt) = "complete" ->
  loadListeners (initializeInherited handlers rt) = loadListeners rt.
Proof.
  unfold initializeInherited.
  induction handlers as [|h hs IH]; intros rt Hready; cbn [foldl]; [done|].
  destruct (initialize_keeps_location h rt) as (_ & _ & H3).
  destruct (isCurrentWebsite h (rt_page rt)); [|by apply IH].
  rewrite IH by (by rewrite H3). by apply initialize_listeners_complete.
Qed.

Lemma initializeInherited_keeps_location (handlers : list (Handler Dom)) : forall rt,
  loc_href (rt_page (initializeInherited handlers rt)) = loc_href (rt_page rt) /\
  loc_hostname (rt_page (initializeInherited handlers rt)) = loc_hostname (rt_page rt).
Proof.
  unfold initializeInherited.
  induction handlers as [|h hs IH]; intros rt; cbn [foldl]; [done|].
  destruct (IH (if isCurrentWebsite h (rt_page rt)
                then snd (initialize h rt) else rt)) as [-> ->].
  destruct (isCurrentWebsite h (rt_page rt)); [|done].
  by destruct (initialize_keeps_location h rt) as (-> & -> & _).
Qed.

(** What the loop does to the runtime, on either state of the document. *)
Lemma initializeInherited_starts (handlers : list (Handler Dom)) rt :
  let matching :=
    List.filter (fun h => isCurrentWebsite h (rt_page rt)) handlers in
  let rt' := initializeInherited handlers rt in
  (readyState (rt_page rt) = "complete" ->
     schedulerCalls rt' = schedulerCalls rt ++ map runWithDelays_task matching /\
     loadListeners rt' = loadListeners rt) /\
  (readyState (rt_page rt) <> "complete" ->
     schedulerCalls rt' = schedulerCalls rt /\
     loadListeners rt' = loadListeners rt ++ map OnLoadRunWithDelays matching /\
     schedulerCalls (dispatchLoad rt') =
       schedulerCalls rt ++ map listener_task (loadListeners rt)
         ++ map runWithDelays_task matching).
Proof.
  intros matching rt'. subst rt' matching. split; intros Hready.
  - split; [by apply initializeInherited_calls
           |by apply initializeInherited_listeners_complete].
  - destruct (initializeInherited_loading handlers rt Hready) as [Hc Hl].
    split; [done|split; [done|]].
    rewrite dispatchLoad_calls, Hc, Hl, map_app, map_map.
    done.
Qed.

(** **** The loop as the list has it, with the call looked up on the object *)

Lemma answers_location (p q : Page Dom) (o : HandlerObject Dom) :
  loc_href p = loc_href q -> loc_hostname p = loc_hostname q ->
  answers p o -> answers q o.
Proof.
  intros H1 H2 Ha Hcur. apply Ha. rewrite <- Hcur.
  by apply isCurrentWebsite_location.
Qed.

(** While every handler on its page inherits [initialize], the loop runs to
    its end and is the loop above. *)
Lemma initializeHandlers_answered (handlers : list (HandlerObject Dom)) :
  forall c,
  Forall (answers (rt_page (c_runtime c))) handlers ->
  initializeHandlers handlers c =
  (Normal tt,
   {| c_runtime := initializeInherited (map as_handler handlers) (c_runtime c);
      studioObservers := studioObservers c |}).
Proof.
  induction handlers as [|o os IH]; intros c Hall.
  - by destruct c.
  - apply Forall_cons in Hall as [Ho Hos]. cbn [initializeHandlers map].
    unfold initializeInherited. cbn [foldl].
    destruct (isCurrentWebsite (as_handler o) (rt_page (c_runtime c))) eqn:Hcur.
    + unfold callInitialize. rewrite (Ho Hcur).
      destruct (initialize_keeps_location (as_handler o) (c_runtime c))
        as (H1 & H2 & _).
      destruct (initialize (as_handler o) (c_runtime c)) as [value rt'] eqn:Hi.
      cbn [snd] in *. rewrite IH; [done|]. cbn [c_runtime].
      eapply Forall_impl; [exact Hos|]. intros o'.
      by apply answers_location.
    + by rewrite IH.
Qed.

(** The first handler on its page with an [initialize] of its own ends the
    loop: the handlers before it have been started, the ones after it are
    not reached. *)
Lemma initializeHandlers_unanswered (before : list (HandlerObject Dom))
    (studio : HandlerObject Dom) (after : list (HandlerObject Dom)) :
  forall c,
  Forall (answers (rt_page (c_runtime c))) before ->
  isCurrentWebsite (as_handler studio) (rt_page (c_runtime c)) = true ->
  its_initialize studio = StudioInitialize ->
  initializeHandlers (before ++ studio :: after) c =
  (Throw (JStr "TypeError"),
   {| c_runtime := initializeInherited (map as_handler before) (c_runtime c);
      studioObservers := S (studioObservers c) |}).
Proof.
  induction before as [|o os IH]; intros c Hall Hcur Hs.
  - cbn [app initializeHandlers map]. rewrite Hcur.
    unfold callInitialize. by rewrite Hs.
  - apply Forall_cons in Hall as [Ho Hos].
    cbn [app initializeHandlers map].
    unfold initializeInherited. cbn [foldl].
    destruct (isCurrentWebsite (as_handler o) (rt_page (c_runtime c))) eqn:Hcuro.
    + unfold callInitialize. rewrite (Ho Hcuro).
      destruct (initialize_keeps_location (as_handler o) (c_runtime c))
        as (H1 & H2 & _).
      destruct (initialize (as_handler o) (c_runtime c)) as [value rt'] eqn:Hi.
      cbn [snd] in *. rewrite IH; [done| |by rewrite <- Hcur; apply isCurrentWebsite_location|done].
      cbn [c_runtime].
      eapply Forall_impl; [exact Hos|]. intros o'.
      by apply answers_location.
    + by rewrite IH.
Qed.

(** Every list is of one of the two kinds. *)
Lemma handlers_split (p : Page Dom) (handlers : list (HandlerObject Dom)) :
  Forall (answers p) handlers \/
  exists before studio after,
    handlers = before ++ studio :: after /\
    Forall (answers p) before /\
    isCurrentWebsite (as_handler studio) p = true /\
    its_initialize studio = StudioInitialize.
Proof.
  induction handlers as [|o os IH]; [by left|].
  assert (answers p o \/
          (isCurrentWebsite (as_handler o) p = true /\
           its_initialize o = StudioInitialize)) as [Ho|[Hcur Hm]].
  { unfold answers. destruct (isCurrentWebsite (as_handler o) p).
    - destruct (its_initialize o); [by left|by right].
    - left. intros H. discriminate H. }
  - destruct IH as [Hall|(before & studio & after & -> & Hall & Hc & Hs)].
    + left. by constructor.
    + right. exists (o :: before), studio, after.
      split; [done|split; [|done]]. by constructor.
  - right. by exists [], o, os.
Qed.

(** The runtime after the loop is the one after the loop over the handlers
    that were reached and answered. *)
Lemma initializeHandlers_scanned (handlers : list (HandlerObject Dom)) c :
  exists scanned rest,
    handlers = scanned ++ rest /\
    Forall (answers (rt_page (c_runtime c))) scanned /\
    c_runtime (snd (initializeHandlers handlers c)) =
      initializeInherited (map as_handler scanned) (c_runtime c).
Proof.
  destruct (handlers_split (rt_page (c_runtime c)) handlers)
    as [Hall|(before & studio & after & -> & Hall & Hc & Hs)].
  - exists handlers, []. rewrite app_nil_r.
    by rewrite initializeHandlers_answered.
  - exists before, (studio :: after).
    by rewrite initializeHandlers_unanswered.
Qed.

Lemma initializeHandlers_keeps_location (handlers : list (HandlerObject Dom)) c :
  loc_href (rt_page (c_runtime (snd (initializeHandlers handlers c))))
    = loc_href (rt_page (c_runtime c)).
Proof.
  destruct (initializeHandlers_scanned handlers c) as (scanned & rest & _ & _ & ->).
  apply initializeInherited_keeps_location.
Qed.

(** The observer does nothing while the URL is the last one seen. *)
Lemma onMutation_same_url (handlers : list (HandlerObject Dom)) c :
  onMutation handlers (loc_href (rt_page (c_runtime c))) c
  = (loc_href (rt_page (c_runtime c)), (Normal tt, c)).
Proof. unfold onMutation. by rewrite String.eqb_refl. Qed.


End HandlerFacts.

(** ** The URL watcher of [logic.js] *)

Module LogicFacts.
Import Logic.

Lemma map_get_elem key m h :
  map_get key m = Some h -> exists domain, (domain, h) ∈ m.
Proof.
  induction m as [|[k v] m IH]; cbn [map_get]; [done|].
  destruct (String.eqb key k).
  - intros [= ->]. exists k. apply list_elem_of_here.
  - intros H. destruct (IH H) as [d Hd]. exists d. by apply list_elem_of_further.
Qed.

Lemma subdomain_match_elem hostname m h :
  subdomain_match hostname m = Some h -> exists domain, (domain, h) ∈ m.
Proof.
  induction m as [|[k v] m IH]; cbn [subdomain_match]; [done|].
  destruct (endsWith hostname ("." +:+ k) || String.eqb hostname k).
  - intros [= ->]. exists k. apply list_elem_of_here.
  - intros H. destruct (IH H) as [d Hd]. exists d. by apply list_elem_of_further.
Qed.

(** The handler found for a page is a registered one. *)
Lemma getHandlerForCurrentPage_registered hostname st h :
  getHandlerForCurrentPage hostname st = Some h ->
  exists domain, (domain, h) ∈ platformHandlers st.
Proof.
  unfold getHandlerForCurrentPage.
  destruct (map_get hostname (platformHandlers st)) as [h1|] eqn:H1.
  { intros [= <-]. by eapply map_get_elem. }
  destruct (map_get (withoutWww hostname) (platformHandlers st)) as [h2|] eqn:H2.
  { intros [= <-]. by eapply map_get_elem. }
  apply subdomain_match_elem.
Qed.

Lemma active_cleanup_other st prev r :
  r <> prev -> active (cleanup prev st) r <-> active st r.
Proof.
  intros Hne. unfold active, cleanup. cbn.
  by rewrite lookup_alter_ne.
Qed.

Lemma not_active_cleanup st prev : ~ active (cleanup prev st) prev.
Proof.
  unfold active, cleanup. cbn. rewrite lookup_alter_eq.
  intros (o & Ho & Hi). destruct (heap st !! prev) as [o'|]; [|done].
  injection Ho as <-. done.
Qed.

(** [init] on a handler that is not active activates it and nothing else,
    and calls its [enableFeatures]. *)
Lemma init_inactive st h :
  is_Some (heap st !! h) -> ~ active st h ->
  heap (init h st) = alter (set_initialized true) h (heap st) /\
  calls (init h st) = calls st ++ [CallInit h; CallEnableFeatures h] /\
  currentHandler (init h st) = currentHandler st /\
  currentUrl (init h st) = currentUrl st /\
  platformHandlers (init h st) = platformHandlers st.
Proof.
  intros [o Ho] Hna. unfold init. cbn. rewrite Ho.
  destruct (initialized o) eqn:Hi.
  - exfalso. apply Hna. by exists o.
  - cbn. by rewrite <- app_assoc.
Qed.

Lemma active_after_init st h r :
  is_Some (heap st !! h) -> ~ active st h ->
  active (init h st) r <-> r = h \/ active st r.
Proof.
  intros Hs Hna. destruct (init_inactive st h Hs Hna) as (Hh & _).
  unfold active. rewrite Hh. destruct (decide (r = h)) as [->|Hne].
  - rewrite lookup_alter_eq. destruct Hs as [o Ho]. rewrite Ho. cbn.
    split; [by left|]. intros _. by eexists.
  - rewrite lookup_alter_ne by done. split; [by right|].
    by intros [?|?].
Qed.

(** After [init] on a handler that has no object, or is active already,
    the active handlers are those of before. *)
Lemma active_after_init_other st h r :
  (heap st !! h = None \/ active st h) ->
  active (init h st) r <-> active st r.
Proof.
  intros Hc. unfold active, init. cbn.
  destruct (heap st !! h) as [o|] eqn:Ho; [|done].
  destruct (initialized o) eqn:Hi; [done|].
  destruct Hc as [?|(o' & Ho' & Hi')]; [done|]. congruence.
Qed.

(** The watcher keeps every active handler current. *)
Lemma handleUrlChange_keeps_current loc st :
  only_current_active st -> only_current_active (handleUrlChange loc st).
Proof.
  intros Hinv. unfold handleUrlChange.
  destruct (String.eqb (href loc) (currentUrl st)); cbn [negb]; [done|].
  set (st1 := set_currentUrl (href loc) st).
  assert (only_current_active st1) as Hinv1 by exact Hinv.
  destruct (getHandlerForCurrentPage (hostname loc) st1) as [h|]; [|done].
  destruct (bool_decide (currentHandler st1 = Some h)) eqn:Hsame;
    cbn [negb]; [done|].
  apply bool_decide_eq_false in Hsame.
  set (st2 := match currentHandler st1 with
              | Some previous => cleanup previous st1
              | None => st1
              end).
  assert (forall r, ~ active st2 r) as Hnone.
  { intros r Hr. unfold st2 in Hr.
    destruct (currentHandler st1) as [prev|] eqn:Hcur.
    - destruct (decide (r = prev)) as [->|Hne].
      + by apply not_active_cleanup in Hr.
      + apply active_cleanup_other in Hr; [|done].
        apply Hinv1 in Hr. congruence.
    - apply Hinv1 in Hr. congruence. }
  set (st3 := set_currentHandler (Some h) st2).
  assert (forall r, ~ active st3 r) as Hnone3 by exact Hnone.
  intros r Hr.
  destruct (heap st3 !! h) as [o|] eqn:Ho.
  - apply active_after_init in Hr; [|by eexists|apply Hnone3].
    destruct Hr as [->|Hr]; [|by apply Hnone3 in Hr].
    destruct (init_inactive st3 h) as (_ & _ & Hc & _);
      [by eexists|apply Hnone3|]. by rewrite Hc.
  - apply active_after_init_other in Hr; [|by left]. by apply Hnone3 in Hr.
Qed.

Lemma navigate_keeps_current locs : forall st,
  only_current_active st -> only_current_active (navigate locs st).
Proof.
  unfold navigate. induction locs as [|loc locs IH]; intros st Hinv; [done|].
  cbn [foldl]. apply IH. by apply handleUrlChange_keeps_current.
Qed.

(** [initExtension], run while no handler is active, leaves only the
    handler it found active. *)
Lemma initExtension_keeps_current loc st :
  (forall r, ~ active st r) -> only_current_active (initExtension loc st).
Proof.
  intros Hnone r Hr. unfold initExtension in *.
  destruct (getHandlerForCurrentPage (hostname loc) st) as [h|];
    [|by apply Hnone in Hr].
  set (st1 := set_currentHandler (Some h) st) in *.
  assert (forall r, ~ active st1 r) as Hnone1 by exact Hnone.
  destruct (heap st1 !! h) as [o|] eqn:Ho.
  - apply active_after_init in Hr; [|by eexists|apply Hnone1].
    destruct Hr as [->|Hr]; [|by apply Hnone1 in Hr].
    destruct (init_inactive st1 h) as (_ & _ & Hc & _);
      [by eexists|apply Hnone1|]. by rewrite Hc.
  - apply active_after_init_other in Hr; [|by left]. by apply Hnone1 in Hr.
Qed.

Lemma at_most_one_active st r1 r2 :
  only_current_active st -> active st r1 -> active st r2 -> r1 = r2.
Proof. intros Hinv H1%Hinv H2%Hinv. congruence. Qed.

(** X30. The watcher of [logic.js], in a state where only the current
    handler is initialized and every registered handler is an object:
    when it sees a URL that differs from the last one and
    the registry finds for it a handler that is not the current one, the
    previous handler, when there is one, is cleaned up (its [initialized]
    flag is reset), the handler found becomes the current one and its
    [init] runs, which activates it and calls its [enableFeatures]. Only
    the current handler is active afterwards, so at most one handler is
    active after this event and after any further URL changes. *)
Theorem handleUrlChange_switches_handler st loc h :
  only_current_active st ->
  registry_valid st ->
  href loc <> currentUrl st ->
  getHandlerForCurrentPage (hostname loc) st = Some h ->
  currentHandler st <> Some h ->
  let st' := handleUrlChange loc st in
  currentUrl st' = href loc /\
  currentHandler st' = Some h /\
  active st' h /\
  (forall prev, currentHandler st = Some prev ->
     ~ active st' prev /\
     calls st' = calls st ++ [CallCleanup prev; CallInit h; CallEnableFeatures h]) /\
  (currentHandler st = None ->
     calls st' = calls st ++ [CallInit h; CallEnableFeatures h]) /\
  (forall locs r1 r2,
     active (navigate locs st') r1 -> active (navigate locs st') r2 -> r1 = r2).
Proof.
  intros Hinv Hreg Hurl Hfound Hnew st'.
  assert (only_current_active st') as Hinv'
    by (by apply handleUrlChange_keeps_current).
  assert (is_Some (heap st !! h)) as Hobj.
  { destruct (getHandlerForCurrentPage_registered _ _ _ Hfound) as [d Hd].
    by eapply Hreg. }
  assert (~ active st h) as Hna by (intros Ha%Hinv; done).
  subst st'. unfold handleUrlChange in *.
  apply String.eqb_neq in Hurl. rewrite Hurl in *. cbn [negb] in *.
  set (st1 := set_currentUrl (href loc) st) in *.
  change (getHandlerForCurrentPage (hostname loc) st1)
    with (getHandlerForCurrentPage (hostname loc) st) in *.
  rewrite Hfound in *. change (currentHandler st1) with (currentHandler st) in *.
  rewrite (bool_decide_eq_false_2 _ Hnew) in *. cbn [negb] in *.
  set (st2 := match currentHandler st with
              | Some previous => cleanup previous st1
              | None => st1
              end) in *.
  set (st3 := set_currentHandler (Some h) st2) in *.
  assert (forall r, active st3 r -> active st r /\ currentHandler st <> Some r)
    as Hless.
  { intros r Hr. change (active st2 r) in Hr. unfold st2 in Hr.
    destruct (currentHandler st) as [prev|] eqn:Hcur.
    - destruct (decide (r = prev)) as [->|Hne].
      + by apply not_active_cleanup in Hr.
      + apply active_cleanup_other in Hr; [|done]. split; [done|congruence].
    - split; [done|]. apply Hinv in Hr. congruence. }
  assert (forall r, ~ active st3 r) as Hnone.
  { intros r Hr. destruct (Hless r Hr) as [Ha Hc]. by apply Hinv in Ha. }
  assert (is_Some (heap st3 !! h)) as Hobj3.
  { change (is_Some (heap st2 !! h)). unfold st2.
    destruct (currentHandler st) as [prev|] eqn:Hcur; [|done].
    unfold cleanup. cbn. rewrite lookup_alter_ne; [done|congruence]. }
  destruct (init_inactive st3 h Hobj3 (Hnone h)) as (Hh & Hc & Hcur & Hu & _).
  split; [|split; [|split; [|split; [|split]]]].
  - rewrite Hu. unfold st3, st2. by destruct (currentHandler st).
  - by rewrite Hcur.
  - apply active_after_init; [done|apply Hnone|by left].
  - intros prev Hprev. split.
    + intros Ha. apply active_after_init in Ha; [|done|apply Hnone].
      destruct Ha as [->|Ha]; [congruence|by apply Hnone in Ha].
    + rewrite Hc. unfold st3, st2. rewrite Hprev. cbn.
      by rewrite <- app_assoc.
  - intros Hprev. rewrite Hc. unfold st3, st2. by rewrite Hprev.
  - intros locs r1 r2. apply at_most_one_active.
    by apply navigate_keeps_current.
Qed.

End LogicFacts.

(** ** The properties on concrete pages *)

Lemma setStorageItem_reports_write_witness :
  fst (setStorageItem flagKey false quotaUsedUp) = false /\
  exists e, console (snd (setStorageItem flagKey false quotaUsedUp))
            = [LogSetError flagKey e].
Proof.
  split; [reflexivity|].
  destruct (proj1 (proj2 (proj2
             (setStorageItem_reports_write flagKey false quotaUsedUp))))
    as (e & _ & _ & Hlog); [reflexivity|].
  exists e. exact Hlog.
Defined.

Lemma storage_round_trip_witness :
  getStorageItem flagKey true (snd (setStorageItem flagKey false navigated))
  = (false, snd (setStorageItem flagKey false navigated)).
Proof.
  apply (proj1 (storage_round_trip flagKey false navigated _ eq_refl)).
Defined.

Lemma getFeatureEnabled_reload_reset_witness :
  fst (getFeatureEnabled grokHandler reloaded) = false /\
  items (localStorage (snd (getFeatureEnabled grokHandler reloaded))) !! flagKey
    = Some "false" /\
  getFeatureEnabled grokHandler navigated = (true, navigated).
Proof.
  destruct (getFeatureEnabled_reload_reset grokHandler reloaded) as [Hreload _].
  destruct (getFeatureEnabled_reload_reset grokHandler navigated) as [_ Hplain].
  destruct (Hreload eq_refl) as (H1 & _ & H3).
  destruct (Hplain eq_refl) as [H4 _].
  split; [exact H1|]. split; [exact (H3 eq_refl eq_refl)|].
  exact (H4 true eq_refl).
Defined.

Lemma initialize_starts_scheduler_witness :
  fst (initialize grokHandler (runtimeOf navigated)) = true /\
  length (schedulerCalls (snd (initialize grokHandler (runtimeOf navigated)))) = 1 /\
  length (schedulerCalls (snd (initialize grokHandler (runtimeOf loading)))) = 0 /\
  length (schedulerCalls
            (dispatchLoad (snd (initialize grokHandler (runtimeOf loading))))) = 1.
Proof.
  destruct (initialize_starts_scheduler grokHandler (runtimeOf navigated) eq_refl)
    as (H1 & _ & _ & _ & Hc & _).
  destruct (initialize_starts_scheduler grokHandler (runtimeOf loading) eq_refl)
    as (_ & _ & _ & _ & _ & Hl).
  destruct (Hc eq_refl) as (_ & Hcalls & _).
  destruct Hl as (_ & Hnone & _ & Hload); [discriminate|].
  split; [exact H1|]. rewrite Hcalls, Hnone, Hload. repeat split.
Defined.

Lemma handleUrlChange_switches_handler_witness :
  Logic.currentHandler (Logic.handleUrlChange toGrok onClaude) = Some grokRef /\
  Logic.active (Logic.handleUrlChange toGrok onClaude) grokRef /\
  ~ Logic.active (Logic.handleUrlChange toGrok onClaude) claudeRef.
Proof.
  destruct (LogicFacts.handleUrlChange_switches_handler onClaude toGrok grokRef)
    as (_ & Hcur & Hact & Hprev & _).
  - intros r (o & Ho & Hi). unfold onClaude in Ho. cbn in Ho.
    apply lookup_insert_Some in Ho as [[<- _]|[_ Ho]]; [reflexivity|].
    apply lookup_insert_Some in Ho as [[_ <-]|[_ Ho]]; [discriminate Hi|].
    rewrite lookup_empty in Ho. discriminate Ho.
  - intros domain r Hin. unfold onClaude in *. cbn in *.
    apply list_elem_of_In in Hin. destruct Hin as [[= _ <-]|[[= _ <-]|[]]].
    + exists (Logic.set_initialized true Logic.newHandler). reflexivity.
    + exists Logic.newHandler. reflexivity.
  - discriminate.
  - reflexivity.
  - discriminate.
  - split; [exact Hcur|]. split; [exact Hact|].
    exact (proj1 (Hprev claudeRef eq_refl)).
Defined.


Lemma registered_answers_on_grok (p : Page unit) :
  loc_hostname p = "grok.com" ->
  Forall (answers p) HandlersSample.registered.
Proof.
  intros Hhost. unfold HandlersSample.registered.
  repeat constructor; intros Hcur; try reflexivity.
  exfalso. unfold isCurrentWebsite in Hcur. rewrite Hhost in Hcur.
  vm_compute in Hcur. discriminate Hcur.
Qed.


(** * Further properties of the code *)

(** ** The retry scheduler *)

Lemma sleeps_app t1 t2 : sleeps (t1 ++ t2) = sleeps t1 + sleeps t2.
Proof. unfold sleeps. by rewrite filter_app, length_app. Qed.

Lemma script_sleeps ds : forall rs,
  length rs = length ds -> sleeps (script ds rs) = length ds.
Proof.
  induction ds as [|d ds IH]; intros [|r rs] Hlen; simpl in Hlen; try done.
  cbn [script]. unfold attempt_events.
  change (EvSleep d :: EvInvoke :: ?l) with ([EvSleep d; EvInvoke] ++ l).
  rewrite <- !app_assoc, !sleeps_app, IH by lia.
  destruct r; reflexivity.
Qed.

Lemma filter_is_throw_le (rs : list (completion jsval)) :
  length (filter is_throw rs) <= length rs.
Proof. apply length_filter. Qed.

Section SchedulerBounds.
Context {St : Type} (elapse : Z -> St -> St).
Implicit Types (a : action St) (w : world St) (D : list Z).

(** X1. Whatever the action, the delays and the guard, [tryWithDelays]
    calls the action at most once per delay, sleeps exactly once before each
    call, logs at most one error per call and calls the guard at most
    once. *)
Theorem tryWithDelays_bounds a D (vf : option (guard St)) w :
  exists evs,
    trace (snd (tryWithDelays elapse a D vf w)) = trace w ++ evs /\
    invocations evs <= length D /\
    sleeps evs = invocations evs /\
    loggedErrors evs <= invocations evs /\
    guardEvals evs <= 1.
Proof.
  assert (forall w0 (pre : list event),
            invocations pre = 0 -> sleeps pre = 0 -> loggedErrors pre = 0 ->
            guardEvals pre <= 1 -> trace w0 = trace w ++ pre ->
            exists evs,
              trace (snd (attempts elapse a D w0)) = trace w ++ evs /\
              invocations evs <= length D /\ sleeps evs = invocations evs /\
              loggedErrors evs <= invocations evs /\ guardEvals evs <= 1) as Hloop.
  { intros w0 pre Hi Hs Hl Hg Hpre.
    destruct (attempts_run elapse a D w0) as [_ H2].
    set (outs := outcomes elapse a D (page w0)) in *.
    assert (made outs <= length D) as Hn.
    { rewrite <- (outcomes_length elapse a D (page w0)). apply made_le. }
    assert (length (take (made outs) outs) = length (take (made outs) D)) as Hlen.
    { rewrite !length_take. unfold outs. rewrite outcomes_length. done. }
    destruct (script_counts _ _ Hlen) as (Ci & _ & Cl & Cg).
    pose proof (script_sleeps _ _ Hlen) as Cs.
    pose proof (filter_is_throw_le (take (made outs) outs)) as Ct.
    rewrite length_take in Ci, Cs. rewrite Hlen, length_take in Ct.
    exists (pre ++ script (take (made outs) D) (take (made outs) outs)).
    rewrite H2, Hpre, <- app_assoc.
    rewrite invocations_app, sleeps_app, loggedErrors_app, guardEvals_app.
    repeat split; lia. }
  unfold tryWithDelays. destruct vf as [g|].
  - change (page (emit EvGuard w)) with (page w).
    destruct (g (page w)) as [v|e].
    + destruct (truthy v).
      * destruct (Hloop (emit EvGuard w) [EvGuard]) as (evs & H); try done.
        exists evs. by destruct (attempts elapse a D (emit EvGuard w)).
      * exists [EvGuard].
        change (invocations [EvGuard]) with 0. change (sleeps [EvGuard]) with 0.
        change (loggedErrors [EvGuard]) with 0. change (guardEvals [EvGuard]) with 1.
        repeat split; lia.
    + exists [EvGuard].
      change (invocations [EvGuard]) with 0. change (sleeps [EvGuard]) with 0.
      change (loggedErrors [EvGuard]) with 0. change (guardEvals [EvGuard]) with 1.
      repeat split; lia.
  - destruct (Hloop w []) as (evs & H); try done;
      [change (guardEvals []) with 0; lia|by rewrite app_nil_r|].
    exists evs. by destruct (attempts elapse a D w).
Qed.

(** X2. The only exception that leaves [tryWithDelays] is one thrown by
    the guard: the result is an exception exactly when there is a guard and
    it throws, and then nothing else has happened. *)
Theorem tryWithDelays_throws_iff a D (vf : option (guard St)) w (e : jsval) :
  fst (tryWithDelays elapse a D vf w) = Throw e <->
  exists g, vf = Some g /\ g (page w) = Throw e /\
            tryWithDelays elapse a D vf w = (Throw e, emit EvGuard w).
Proof.
  unfold tryWithDelays. destruct vf as [g|].
  - change (page (emit EvGuard w)) with (page w).
    destruct (g (page w)) as [v|e'] eqn:Hg.
    + split.
      * destruct (truthy v); [|done].
        by destruct (attempts elapse a D (emit EvGuard w)).
      * intros (g' & [= <-] & Hg' & _). congruence.
    + cbn. split.
      * intros [= ->]. by exists g.
      * intros (g' & [= <-] & Hg' & _). congruence.
  - split.
    + by destruct (attempts elapse a D w).
    + by intros (g & ? & _).
Qed.

(** X3. Once the guard has let it start, [tryWithDelays] returns true
    exactly when some attempt of the sequence succeeds, and false otherwise;
    the attempts after the first success are not made. *)
Theorem tryWithDelays_true_iff a D (vf : option (guard St)) w :
  guard_holds vf (page w) ->
  let res := tryWithDelays elapse a D vf w in
  let outs := outcomes elapse a D (page w) in
  (fst res = Normal true <->
   exists i r, outs !! i = Some r /\ succeeded r = true) /\
  (fst res = Normal false <->
   Forall (fun r => succeeded r = false) outs) /\
  invocations (trace (snd res)) = invocations (trace w) + made outs.
Proof.
  intros Hg res outs. subst res.
  destruct (tryWithDelays_started elapse a D vf w Hg) as [H1 H2].
  fold outs in H1, H2. rewrite H1.
  assert (existsb succeeded outs = true <->
          exists i r, outs !! i = Some r /\ succeeded r = true) as Hex.
  { rewrite existsb_exists. split.
    - intros (r & Hin & Hr). apply list_elem_of_In, list_elem_of_lookup in Hin.
      destruct Hin as [i Hi]. by exists i, r.
    - intros (i & r & Hi & Hr). exists r. split; [|done].
      apply list_elem_of_In. by eapply list_elem_of_lookup_2. }
  assert (existsb succeeded outs = false <->
          Forall (fun r => succeeded r = false) outs) as Hall.
  { rewrite Forall_forall. split.
    - intros Hf r Hin. destruct (succeeded r) eqn:Hr; [|done].
      assert (existsb succeeded outs = true) as Ht; [|congruence].
      apply existsb_exists. exists r. split; [|done]. by apply list_elem_of_In.
    - intros Hf. destruct (existsb succeeded outs) eqn:He; [|done].
      apply existsb_exists in He as (r & Hin & Hr).
      apply list_elem_of_In in Hin. rewrite (Hf r Hin) in Hr. done. }
  split; [|split].
  - rewrite <- Hex. split; [by intros [= ->]|by intros ->].
  - rewrite <- Hall. split; [by intros [= ->]|by intros ->].
  - rewrite H2, !invocations_app.
    assert (length (take (made outs) outs) = length (take (made outs) D)) as Hlen.
    { rewrite !length_take. unfold outs. rewrite outcomes_length. done. }
    destruct (script_counts _ _ Hlen) as (Ci & _).
    rewrite Ci, length_take.
    pose proof (made_le outs) as Hm. unfold outs in Hm at 2.
    rewrite outcomes_length in Hm.
    assert (invocations (guard_events vf) = 0) as -> by (by destruct vf).
    lia.
Qed.

End SchedulerBounds.

(** ** The storage adapter and the flag *)

Section MoreStorage.
Context {Dom : Type}.
Implicit Types (p : Page Dom) (h : Handler Dom) (rt : Runtime Dom).

(** X4. [getStorageItem] never writes: the storage is as it was. It
    returns the default when the key holds nothing, and when the storage
    throws, in which case the error is put on the console. *)
Theorem getStorageItem_default (key : string) (d : bool) p :
  localStorage (snd (getStorageItem key d p)) = localStorage p /\
  (items (localStorage p) !! key = None -> fst (getStorageItem key d p) = d) /\
  (forall e, getItem key (localStorage p) = Throw e ->
     getStorageItem key d p = (d, log (LogGetError key e) p)).
Proof.
  unfold getStorageItem, getItem.
  destruct (accessible (localStorage p)); cbn; split; try done; split.
  - by intros ->.
  - done.
  - done.
  - by intros e [= ->].
Qed.

Lemma setStorageItem_flags (key : string) (value : bool) p :
  accessible (localStorage (snd (setStorageItem key value p)))
    = accessible (localStorage p) /\
  writable (localStorage (snd (setStorageItem key value p)))
    = writable (localStorage p) /\
  navEntries (snd (setStorageItem key value p)) = navEntries p /\
  dom (snd (setStorageItem key value p)) = dom p /\
  loc_href (snd (setStorageItem key value p)) = loc_href p /\
  loc_hostname (snd (setStorageItem key value p)) = loc_hostname p.
Proof.
  unfold setStorageItem, setItem.
  destruct (accessible (localStorage p)) eqn:Ha;
    [destruct (writable (localStorage p)) eqn:Hw|]; cbn; done.
Qed.

Lemma setStorageItem_items (key : string) (value : bool) p :
  items (localStorage (snd (setStorageItem key value p))) =
  if fst (setStorageItem key value p)
  then <[key := if value then "true" else "false"]> (items (localStorage p))
  else items (localStorage p).
Proof.
  unfold setStorageItem, setItem.
  destruct (accessible (localStorage p));
    [destruct (writable (localStorage p))|]; cbn; done.
Qed.

(** X5. A write under one key does not change what is read under another
    key, whether the write succeeds or not. *)
Theorem setStorageItem_other_key (key key' : string) (value d : bool) p :
  key' <> key ->
  fst (getStorageItem key' d (snd (setStorageItem key value p))) =
  fst (getStorageItem key' d p).
Proof.
  intros Hne.
  destruct (setStorageItem_flags key value p) as (Ha & _).
  pose proof (setStorageItem_items key value p) as Hi.
  unfold getStorageItem, getItem. rewrite Ha, Hi.
  destruct (accessible (localStorage p)); [|done]. cbn.
  destruct (fst (setStorageItem key value p)); [|done].
  by rewrite lookup_insert_ne.
Qed.

Lemma isPageRefreshed_setStorageItem (key : string) (value : bool) p :
  isPageRefreshed (snd (setStorageItem key value p)) = isPageRefreshed p.
Proof.
  destruct (setStorageItem_flags key value p) as (_ & _ & Hn & _).
  unfold isPageRefreshed. by rewrite Hn.
Qed.

(** X6. After [setFeatureEnabled(b)] has succeeded, [getFeatureEnabled]
    returns [b] on a page that was not reloaded, and false on a reloaded
    page: there the flag just written is not read but reset. *)
Theorem setFeatureEnabled_then_get h (b : bool) p :
  fst (setFeatureEnabled h b p) = true ->
  fst (getFeatureEnabled h (snd (setFeatureEnabled h b p))) =
    (if isPageRefreshed p then false else b) /\
  (isPageRefreshed p = true ->
   items (localStorage
            (snd (getFeatureEnabled h (snd (setFeatureEnabled h b p)))))
     !! storageKey (config h) = Some "false").
Proof.
  unfold setFeatureEnabled. intros Hok.
  set (key := storageKey (config h)) in *.
  destruct (setStorageItem key b p) as [ok p'] eqn:Hset. cbn [fst snd] in *.
  subst ok.
  pose proof (isPageRefreshed_setStorageItem key b p) as Hr.
  rewrite Hset in Hr. cbn [snd] in Hr.
  destruct (setStorageItem_written _ _ _ _ Hset) as (Ha & Hi & _).
  pose proof (setStorageItem_flags key b p) as (_ & Hw & _).
  rewrite Hset in Hw. cbn [snd] in Hw.
  assert (writable (localStorage p) = true) as Hwp.
  { unfold setStorageItem, setItem in Hset.
    destruct (accessible (localStorage p)); [|done].
    by destruct (writable (localStorage p)). }
  unfold getFeatureEnabled, setFeatureEnabled. fold key. rewrite Hr.
  destruct (isPageRefreshed p).
  - destruct (setStorageItem key false p') as [ok2 p2] eqn:Hset2.
    cbn [fst snd]. split; [done|]. intros _.
    unfold setStorageItem, setItem in Hset2.
    rewrite Ha, Hw, Hwp in Hset2. injection Hset2 as _ <-. cbn.
    by rewrite lookup_insert_eq.
  - split; [|done]. unfold getStorageItem, getItem.
    rewrite Ha, Hi, lookup_insert_eq. by destruct b.
Qed.

End MoreStorage.

(** ** Handlers, the handler list and the observer *)

Section MoreHandlers.
Context {Dom : Type}.
Implicit Types (p : Page Dom) (h : Handler Dom) (rt : Runtime Dom).

Lemma outcomes_base (elapse : Z -> Page Dom -> Page Dom) (D : list Z) : forall p,
  outcomes elapse enableFeatures_base D p =
  map (fun _ => Throw (JStr "enableFeatures must be implemented by subclass")) D.
Proof.
  induction D as [|d D IH]; intros p; cbn [outcomes map]; [done|].
  unfold enableFeatures_base at 1. by rewrite IH.
Qed.

(** X7. A handler that keeps the [enableFeatures] of the base class never
    succeeds: its scheduler run returns false, and on a page that is valid
    when the run starts the action is called once per delay and each call
    ends in a logged error. *)
Theorem base_handler_never_enabled (elapse : Z -> Page Dom -> Page Dom) h
    (w : world (Page Dom)) :
  enableFeatures h = enableFeatures_base ->
  let res := run_task elapse (runWithDelays_task h) w in
  fst res = Normal false /\
  (isValidPage h (page w) = true ->
   invocations (trace (snd res))
     = invocations (trace w) + length (defaultDelays (config h)) /\
   loggedErrors (trace (snd res))
     = loggedErrors (trace w) + length (defaultDelays (config h))).
Proof.
  intros Hbase res. subst res. unfold run_task, runWithDelays_task.
  cbn [t_action t_delays t_guard]. rewrite Hbase.
  set (D := defaultDelays (config h)).
  assert (Forall (fun r => succeeded r = false)
                 (outcomes elapse enableFeatures_base D (page w))) as Hall.
  { rewrite outcomes_base. apply Forall_forall. intros r Hr.
    apply list_elem_of_In, in_map_iff in Hr as (? & <- & _). done. }
  assert (length (filter is_throw (outcomes elapse enableFeatures_base D (page w)))
          = length D) as Hthrows.
  { rewrite outcomes_base. clear. induction D as [|d D IH]; [done|].
    cbn [map]. rewrite filter_cons_True by done. cbn. by rewrite IH. }
  destruct (isValidPage h (page w)) eqn:Hvalid.
  - assert (guard_holds (Some (isValidPage_guard h)) (page w)) as Hg.
    { exists (JBool true). unfold isValidPage_guard. by rewrite Hvalid. }
    destruct (tryWithDelays_started elapse enableFeatures_base D _ w Hg)
      as [H1 H2].
    destruct (made_all_fail _ Hall) as [Hm He].
    rewrite Hm, outcomes_length in H2. rewrite He in H1.
    rewrite (take_ge D), (take_ge (outcomes _ _ D (page w))) in H2
      by (rewrite ?outcomes_length; lia).
    destruct (script_counts D (outcomes elapse enableFeatures_base D (page w)))
      as (Hi & _ & Hl & _); [apply outcomes_length|].
    split; [done|]. intros _. rewrite H2.
    rewrite !invocations_app, !loggedErrors_app, Hi, Hl, Hthrows.
    change (invocations (guard_events _)) with 0.
    change (loggedErrors (guard_events _)) with 0. lia.
  - split; [|done]. unfold tryWithDelays.
    change (page (emit EvGuard w)) with (page w).
    unfold isValidPage_guard. by rewrite Hvalid.
Qed.

Lemma initialize_page h rt :
  isCurrentWebsite h (rt_page rt) = true ->
  rt_page (snd (initialize h rt)) =
  snd (setStorageItem (storageKey (config h)) false (rt_page rt)).
Proof.
  intros Hcur. unfold initialize. rewrite Hcur. cbn [negb].
  unfold setFeatureEnabled.
  by destruct (String.eqb _ "complete").
Qed.

(** X8. After [initialize] on a page of the handler whose storage takes
    writes, [getFeatureEnabled] returns false: every initialization starts
    from a cleared flag. *)
Theorem initialize_clears_flag h rt :
  isCurrentWebsite h (rt_page rt) = true ->
  writable (localStorage (rt_page rt)) = true ->
  fst (getFeatureEnabled h (rt_page (snd (initialize h rt)))) = false.
Proof.
  intros Hcur Hw. rewrite (initialize_page h rt Hcur).
  set (key := storageKey (config h)). set (p := rt_page rt) in *.
  unfold getFeatureEnabled.
  destruct (isPageRefreshed (snd (setStorageItem key false p))).
  { by destruct (setFeatureEnabled h false _). }
  fold key.
  destruct (setStorageItem_flags key false p) as (Ha' & _).
  pose proof (setStorageItem_items key false p) as Hi.
  unfold getStorageItem, getItem. rewrite Ha', Hi.
  destruct (accessible (localStorage p)) eqn:Ha; [|done].
  assert (fst (setStorageItem key false p) = true) as ->.
  { unfold setStorageItem, setItem. by rewrite Ha, Hw. }
  by rewrite lookup_insert_eq.
Qed.

(** X9. A handler built without [urlPatterns], or with an empty list of
    them, has no valid page: [initialize] returns false and changes nothing,
    on every page. *)
Theorem no_patterns_never_initializes (arg : ConfigArg)
    (enable : action (Page Dom)) rt :
  arg_urlPatterns arg = None \/ arg_urlPatterns arg = Some [] ->
  let h := {| config := constructor arg; enableFeatures := enable |} in
  isValidPage h (rt_page rt) = false /\
  isCurrentWebsite h (rt_page rt) = false /\
  initialize h rt = (false, rt).
Proof.
  intros Hnone h.
  assert (urlPatterns (config h) = []) as Hp.
  { unfold h, constructor. cbn. by destruct Hnone as [-> | ->]. }
  assert (isValidPage h (rt_page rt) = false) as Hv.
  { unfold isValidPage. by rewrite Hp. }
  assert (isCurrentWebsite h (rt_page rt) = false) as Hc.
  { unfold isCurrentWebsite. rewrite Hv. apply andb_false_r. }
  repeat split; try done. unfold initialize. by rewrite Hc.
Qed.

(** X10. [initialize] keeps no record of having run: called twice on a
    complete page of the handler, it starts the scheduler twice. *)
Theorem initialize_twice_starts_twice h rt :
  isCurrentWebsite h (rt_page rt) = true ->
  readyState (rt_page rt) = "complete" ->
  let rt2 := snd (initialize h (snd (initialize h rt))) in
  fst (initialize h (snd (initialize h rt))) = true /\
  schedulerCalls rt2 =
    schedulerCalls rt ++ [runWithDelays_task h; runWithDelays_task h].
Proof.
  intros Hcur Hready rt2. subst rt2.
  destruct (initialize_keeps_location h rt) as (H1 & H2 & H3).
  assert (isCurrentWebsite h (rt_page (snd (initialize h rt))) = true) as Hcur'.
  { rewrite <- Hcur. by apply isCurrentWebsite_location. }
  split.
  - unfold initialize at 1. rewrite Hcur'. cbn [negb].
    by destruct (String.eqb _ "complete").
  - rewrite initialize_when_complete by (by rewrite ?H3).
    rewrite initialize_when_complete by done.
    by rewrite <- app_assoc.
Qed.

(** X11. [initializeHandlers] goes through the list in order and calls
    [initialize] on the handlers whose [isCurrentWebsite] holds, and on no
    other. The handlers that inherit [initialize] are started: on a
    complete document the scheduler is called once for each, at once, and
    no listener is registered; otherwise no call is made and one [load]
    listener is registered for each, so that the calls are made when
    [load] fires. The loop ends at the first handler on its page that has
    an [initialize] of its own, as [GoogleAIStudioHandler] has: that call
    connects one more observer to the body and returns [undefined], the
    lookup of [catch] on it throws a [TypeError], and the handlers after
    it are not reached. With no such handler the loop ends normally and
    connects no observer. *)
Theorem initializeHandlers_starts_matching (handlers : list (HandlerObject Dom))
    (c : Content Dom) :
  let rt := c_runtime c in
  let res := initializeHandlers handlers c in
  let rt' := c_runtime (snd res) in
  exists scanned,
    let started :=
      List.filter (fun h => isCurrentWebsite h (rt_page rt))
                  (map as_handler scanned) in
    Forall (answers (rt_page rt)) scanned /\
    ((handlers = scanned /\ fst res = Normal tt /\
      studioObservers (snd res) = studioObservers c) \/
     (exists studio after,
        handlers = scanned ++ studio :: after /\
        isCurrentWebsite (as_handler studio) (rt_page rt) = true /\
        its_initialize studio = StudioInitialize /\
        fst res = Throw (JStr "TypeError") /\
        studioObservers (snd res) = S (studioObservers c))) /\
    (readyState (rt_page rt) = "complete" ->
       schedulerCalls rt' = schedulerCalls rt ++ map runWithDelays_task started /\
       loadListeners rt' = loadListeners rt) /\
    (readyState (rt_page rt) <> "complete" ->
       schedulerCalls rt' = schedulerCalls rt /\
       loadListeners rt' = loadListeners rt ++ map OnLoadRunWithDelays started /\
       schedulerCalls (dispatchLoad rt') =
         schedulerCalls rt ++ map listener_task (loadListeners rt)
           ++ map runWithDelays_task started).
Proof.
  intros rt res rt'. subst rt' res rt.
  destruct (handlers_split (rt_page (c_runtime c)) handlers)
    as [Hall|(before & studio & after & -> & Hall & Hc & Hs)].
  - exists handlers. rewrite initializeHandlers_answered by done.
    cbn [fst snd c_runtime studioObservers].
    split; [done|split; [by left|]]. apply initializeInherited_starts.
  - exists before. rewrite initializeHandlers_unanswered by done.
    cbn [fst snd c_runtime studioObservers].
    split; [done|split; [|apply initializeInherited_starts]].
    right. by exists studio, after.
Qed.

(** X12. The observer's callback scans the handlers once per URL: right
    after a callback, a further callback on the same URL ends normally and
    changes nothing. *)
Theorem onMutation_once_per_url (handlers : list (HandlerObject Dom))
    (lastUrl : string) (c : Content Dom) :
  let r := onMutation handlers lastUrl c in
  fst r = loc_href (rt_page (c_runtime c)) /\
  onMutation handlers (fst r) (snd (snd r)) = (fst r, (Normal tt, snd (snd r))).
Proof.
  intros r. subst r. unfold onMutation.
  destruct (String.eqb_spec (loc_href (rt_page (c_runtime c))) lastUrl) as [He|Hne];
    cbn [negb fst snd].
  - split; [done|]. rewrite <- He at 1. by rewrite String.eqb_refl.
  - split; [done|]. rewrite initializeHandlers_keeps_location.
    by rewrite String.eqb_refl.
Qed.

Lemma initialize_storage h rt :
  writable (localStorage (rt_page (snd (initialize h rt))))
    = writable (localStorage (rt_page rt)) /\
  (forall key, cleared key (rt_page rt) ->
               writable (localStorage (rt_page rt)) = true ->
               cleared key (rt_page (snd (initialize h rt)))) /\
  (isCurrentWebsite h (rt_page rt) = true ->
   writable (localStorage (rt_page rt)) = true ->
   cleared (storageKey (config h)) (rt_page (snd (initialize h rt)))).
Proof.
  destruct (isCurrentWebsite h (rt_page rt)) eqn:Hcur.
  - rewrite (initialize_page h rt Hcur).
    set (k := storageKey (config h)). set (p := rt_page rt).
    destruct (setStorageItem_flags k false p) as (Ha & Hw & _).
    pose proof (setStorageItem_items k false p) as Hi.
    assert (accessible (localStorage p) = true ->
            writable (localStorage p) = true ->
            fst (setStorageItem k false p) = true) as Hok.
    { intros Hap Hwp. unfold setStorageItem, setItem. by rewrite Hap, Hwp. }
    split; [done|split].
    + intros key Hc Hwp Hacc. rewrite Ha in Hacc. rewrite Hi, Hok by done.
      destruct (decide (k = key)) as [->|Hne].
      * by rewrite lookup_insert_eq.
      * rewrite lookup_insert_ne by done. by apply Hc.
    + intros _ Hwp Hacc. rewrite Ha in Hacc. rewrite Hi, Hok by done.
      by rewrite lookup_insert_eq.
  - unfold initialize. rewrite Hcur. cbn. done.
Qed.

Lemma initializeInherited_storage (handlers : list (Handler Dom)) :
  forall rt,
  writable (localStorage (rt_page (initializeInherited handlers rt)))
    = writable (localStorage (rt_page rt)) /\
  (forall key, cleared key (rt_page rt) ->
               writable (localStorage (rt_page rt)) = true ->
               cleared key (rt_page (initializeInherited handlers rt))).
Proof.
  unfold initializeInherited.
  induction handlers as [|h hs IH]; intros rt; cbn [foldl]; [done|].
  destruct (initialize_storage h rt) as (Hw' & Hkeep & _).
  destruct (isCurrentWebsite h (rt_page rt)); [|by apply IH].
  destruct (IH (snd (initialize h rt))) as [IHw IHc].
  split; [by rewrite IHw|].
  intros key Hc Hw. apply IHc; [by apply Hkeep|by rewrite Hw'].
Qed.

(** Whatever the loop reaches, a flag that reads as false keeps doing so. *)
Lemma initializeHandlers_keeps_cleared (handlers : list (HandlerObject Dom)) key c :
  writable (localStorage (rt_page (c_runtime c))) = true ->
  cleared key (rt_page (c_runtime c)) ->
  cleared key (rt_page (c_runtime (snd (initializeHandlers handlers c)))).
Proof.
  intros Hw Hc.
  destruct (initializeHandlers_scanned handlers c) as (scanned & rest & _ & _ & ->).
  by apply initializeInherited_storage.
Qed.

(** The loop over a list whose first part answers goes on with the rest. *)
Lemma initializeHandlers_app (before rest : list (HandlerObject Dom)) :
  forall c,
  Forall (answers (rt_page (c_runtime c))) before ->
  initializeHandlers (before ++ rest) c =
  initializeHandlers rest
    {| c_runtime := initializeInherited (map as_handler before) (c_runtime c);
       studioObservers := studioObservers c |}.
Proof.
  induction before as [|o os IH]; intros c Hall.
  - by destruct c.
  - apply Forall_cons in Hall as [Ho Hos]. cbn [app initializeHandlers map].
    unfold initializeInherited. cbn [foldl].
    destruct (isCurrentWebsite (as_handler o) (rt_page (c_runtime c))) eqn:Hcur.
    + unfold callInitialize. rewrite (Ho Hcur).
      destruct (initialize_keeps_location (as_handler o) (c_runtime c))
        as (H1 & H2 & _).
      destruct (initialize (as_handler o) (c_runtime c)) as [value rt'] eqn:Hi.
      cbn [snd] in *. rewrite IH; [done|]. cbn [c_runtime].
      eapply Forall_impl; [exact Hos|]. intros o'.
      by apply answers_location.
    + by rewrite IH.
Qed.

(** X13. After [initializeHandlers] on a page whose storage takes writes,
    the flag of a handler of the list reads as false when the handler is
    on its page, inherits [initialize] and is reached, that is, no handler
    before it in the list is on its page with an [initialize] of its own.
    This holds whatever follows the handler in the list, also when
    several handlers share a key and when the loop ends in an error
    further on. *)
Theorem initializeHandlers_clears_flags (before : list (HandlerObject Dom))
    (o : HandlerObject Dom) (after : list (HandlerObject Dom)) (c : Content Dom) :
  Forall (answers (rt_page (c_runtime c))) before ->
  isCurrentWebsite (as_handler o) (rt_page (c_runtime c)) = true ->
  its_initialize o = InheritedInitialize ->
  writable (localStorage (rt_page (c_runtime c))) = true ->
  fst (getFeatureEnabled (as_handler o)
         (rt_page (c_runtime (snd (initializeHandlers (before ++ o :: after) c)))))
  = false.
Proof.
  intros Hall Hcur Hinh Hw.
  set (final := rt_page (c_runtime (snd (initializeHandlers (before ++ o :: after) c)))).
  assert (cleared (storageKey (config (as_handler o))) final) as Hc.
  { subst final. rewrite initializeHandlers_app by done.
    set (rt1 := initializeInherited (map as_handler before) (c_runtime c)).
    destruct (initializeInherited_keeps_location (map as_handler before) (c_runtime c))
      as [L1 L2].
    destruct (initializeInherited_storage (map as_handler before) (c_runtime c))
      as [W1 _].
    fold rt1 in L1, L2, W1.
    assert (isCurrentWebsite (as_handler o) (rt_page rt1) = true) as Hcur1.
    { rewrite <- Hcur. by apply isCurrentWebsite_location. }
    cbn [initializeHandlers c_runtime]. rewrite Hcur1.
    unfold callInitialize. rewrite Hinh. cbn [c_runtime studioObservers].
    destruct (initialize_storage (as_handler o) rt1) as (W2 & _ & Hset).
    destruct (initialize (as_handler o) rt1) as [value rt2] eqn:Hi.
    cbn [snd] in *.
    apply initializeHandlers_keeps_cleared; cbn [c_runtime].
    - by rewrite W2, W1.
    - apply Hset; [done|by rewrite W1]. }
  unfold getFeatureEnabled.
  destruct (isPageRefreshed _); [by destruct (setFeatureEnabled _ false _)|].
  unfold getStorageItem, getItem.
  destruct (accessible (localStorage final)) eqn:Ha; [|done].
  by rewrite (Hc Ha).
Qed.

End MoreHandlers.

(** ** Handlers that work on the document *)

(** *** [trim] *)

Lemma trimStart_empty (s : Dom.codeUnits) :
  Dom.trimStart s = [] <-> forallb Dom.isWhiteSpace s = true.
Proof.
  induction s as [|u s IH]; cbn [Dom.trimStart forallb]; [done|].
  destruct (Dom.isWhiteSpace u); cbn [andb]; [exact IH|].
  split; intros H; discriminate H.
Qed.

Lemma trimStart_head (s : Dom.codeUnits) :
  forallb Dom.isWhiteSpace (Dom.trimStart s) = true -> Dom.trimStart s = [].
Proof.
  induction s as [|u s IH]; cbn [Dom.trimStart]; [done|].
  destruct (Dom.isWhiteSpace u) eqn:Hu; [exact IH|].
  cbn [forallb]. rewrite Hu. intros H. discriminate H.
Qed.

(** The text is empty after [trim] exactly when it holds white space and
    line terminators only. *)
Lemma trim_empty (s : Dom.codeUnits) :
  Dom.trim s = [] <-> forallb Dom.isWhiteSpace s = true.
Proof.
  unfold Dom.trim. split.
  - intros H. apply (f_equal (@rev N)) in H. rewrite rev_involutive in H.
    cbn [rev] in H. apply trimStart_empty in H.
    apply trimStart_empty, trimStart_head.
    rewrite forallb_forall in *. intros u Hu. apply H. by apply in_rev in Hu.
  - intros H. apply trimStart_empty in H. by rewrite H.
Qed.

Section DocumentFacts.
Context {D El : Type}.
Variable react : El -> string -> D -> D.
Variable elapse : Z -> Page D -> Page D.
Variable buttons : D -> list El.
Variable spanText : El -> D -> option string.
Variable getAttribute : El -> string -> D -> option string.
Variable textContent : El -> D -> string.
Variable innerText : El -> D -> Dom.codeUnits.
Variable canvasMentions : D -> list El.
Variable promptEditor : D -> option El.
Variable toolsButton : D -> option El.
Variable body : D -> option El.
Implicit Types (this : Handler D) (p : Page D) (w : @Dom.run D El).

#[local] Abbreviation toggleGrokThinking :=
  (Dom.toggleGrokThinking react elapse buttons spanText getAttribute).
#[local] Abbreviation isThinkButton := (Dom.isThinkButton spanText getAttribute).
#[local] Abbreviation isPressed := (Dom.isPressed getAttribute).
#[local] Abbreviation simulateClick := (Dom.simulateClick react).
#[local] Abbreviation enableChatGPTCanvas :=
  (Dom.enableChatGPTCanvas react elapse buttons textContent innerText
     canvasMentions promptEditor toolsButton body).
#[local] Abbreviation chatGPT_enableFeatures :=
  (Dom.chatGPT_enableFeatures react elapse buttons textContent innerText
     canvasMentions promptEditor toolsButton body).
#[local] Abbreviation isCanvasAlreadyEnabled := (Dom.isCanvasAlreadyEnabled canvasMentions).

Ltac act :=
  unfold mbind, mret, Dom.Act_bind, Dom.Act_ret,
    Dom.onPage, Dom.getDom, Dom.getPage, Dom.waitFor;
  cbn [fst snd Dom.r_page Dom.r_events].

Lemma getStorageItem_keeps (key : string) (d : bool) p :
  dom (snd (getStorageItem key d p)) = dom p /\
  localStorage (snd (getStorageItem key d p)) = localStorage p.
Proof.
  unfold getStorageItem. by destruct (getItem key (localStorage p)) as [[v|]|e].
Qed.

Lemma getFeatureEnabled_dom this p :
  dom (snd (getFeatureEnabled this p)) = dom p.
Proof.
  unfold getFeatureEnabled, setFeatureEnabled.
  destruct (isPageRefreshed p).
  - destruct (setStorageItem_flags (storageKey (config this)) false p)
      as (_ & _ & _ & Hd & _).
    by destruct (setStorageItem _ false p).
  - apply getStorageItem_keeps.
Qed.

(** What a true answer of [getFeatureEnabled] means. *)
Lemma getFeatureEnabled_true this p :
  fst (getFeatureEnabled this p) = true ->
  snd (getFeatureEnabled this p) = p /\
  accessible (localStorage p) = true /\
  items (localStorage p) !! storageKey (config this) = Some "true".
Proof.
  unfold getFeatureEnabled, setFeatureEnabled.
  destruct (isPageRefreshed p).
  { by destruct (setStorageItem _ false p). }
  unfold getStorageItem, getItem.
  destruct (accessible (localStorage p)); [|done]. cbn.
  destruct (items (localStorage p) !! storageKey (config this)) as [v|]; [|done].
  cbn. intros Hv%String.eqb_eq. by subst v.
Qed.

(** After [setFeatureEnabled(true)] a storage that can be read and written
    holds "true" under the key. *)
Lemma setFeatureEnabled_true_stored this p :
  let p' := snd (setFeatureEnabled this true p) in
  dom p' = dom p /\
  (accessible (localStorage p') = true -> writable (localStorage p') = true ->
   items (localStorage p') !! storageKey (config this) = Some "true").
Proof.
  unfold setFeatureEnabled. set (key := storageKey (config this)).
  destruct (setStorageItem_flags key true p) as (Ha & Hw & _ & Hd & _).
  pose proof (setStorageItem_items key true p) as Hi.
  split; [done|]. rewrite Ha, Hw, Hi. intros Hap Hwp.
  assert (fst (setStorageItem key true p) = true) as ->.
  { unfold setStorageItem, setItem. by rewrite Hap, Hwp. }
  by rewrite lookup_insert_eq.
Qed.

Lemma simulateClick_some (e : El) w :
  simulateClick (Some e) w =
  (true,
   Dom.Run (Dom.with_dom
              (react e "mouseup" (react e "click" (react e "mousedown"
                 (dom (Dom.r_page w)))))
              (Dom.r_page w))
           (Dom.r_events w ++ Dom.click_events e)).
Proof.
  unfold Dom.simulateClick, Dom.dispatchEvent, Dom.click_events. act.
  cbn. by rewrite <- !app_assoc.
Qed.

(** X14. [toggleGrokThinking] trusts the stored flag: on a page that was
    not reloaded and whose flag is stored as true, it returns true without
    reading the document and without dispatching an event. *)
Theorem toggleGrokThinking_trusts_flag this p (ev : list (El * string)) :
  isPageRefreshed p = false ->
  getItem (storageKey (config this)) (localStorage p) = Normal (Some "true") ->
  toggleGrokThinking this (Dom.Run p ev) = (true, Dom.Run p ev).
Proof.
  intros Hr Hget. unfold Dom.toggleGrokThinking. act.
  unfold getFeatureEnabled. rewrite Hr. unfold getStorageItem. rewrite Hget.
  reflexivity.
Qed.

(** X15. [toggleGrokThinking] clicks at most once. It dispatches the three
    events of one click on the Think button when the flag does not read as
    true, the document has a Think button and that button is not pressed;
    in every other case it dispatches nothing. *)
Theorem toggleGrokThinking_events this w :
  let d := dom (Dom.r_page w) in
  Dom.r_events (snd (toggleGrokThinking this w)) =
  Dom.r_events w ++
    (if fst (getFeatureEnabled this (Dom.r_page w)) then []
     else match List.find (isThinkButton d) (buttons d) with
          | None => []
          | Some thinkButton =>
              if isPressed d thinkButton then []
              else Dom.click_events thinkButton
          end).
Proof.
  intros d. unfold Dom.toggleGrokThinking. act.
  pose proof (getFeatureEnabled_dom this (Dom.r_page w)) as Hd.
  destruct (getFeatureEnabled this (Dom.r_page w)) as [enabled p1].
  cbn [fst snd] in *. destruct enabled; act; [by rewrite app_nil_r|].
  rewrite Hd. fold d.
  destruct (List.find (isThinkButton d) (buttons d)) as [tb|];
    act; [|by rewrite app_nil_r].
  destruct (isPressed d tb); act.
  - destruct (setFeatureEnabled this true p1). act. by rewrite app_nil_r.
  - rewrite simulateClick_some. act.
    match goal with |- context [isPressed ?d' tb] => destruct (isPressed d' tb) end;
      act; [|done].
    by destruct (setFeatureEnabled this true _).
Qed.

(** X16. When [toggleGrokThinking] returns true, either the flag already
    read as true or the Think button it found is pressed in the document it
    leaves; and a storage that can be read and written then holds "true"
    under the handler's key. *)
Theorem toggleGrokThinking_true this w :
  let res := toggleGrokThinking this w in
  let d := dom (Dom.r_page w) in
  fst res = true ->
  (fst (getFeatureEnabled this (Dom.r_page w)) = true \/
   exists thinkButton,
     List.find (isThinkButton d) (buttons d) = Some thinkButton /\
     isPressed (dom (Dom.r_page (snd res))) thinkButton = true) /\
  (accessible (localStorage (Dom.r_page (snd res))) = true ->
   writable (localStorage (Dom.r_page (snd res))) = true ->
   items (localStorage (Dom.r_page (snd res))) !! storageKey (config this)
     = Some "true").
Proof.
  intros res d. subst res. unfold Dom.toggleGrokThinking. act.
  pose proof (getFeatureEnabled_dom this (Dom.r_page w)) as Hd.
  pose proof (getFeatureEnabled_true this (Dom.r_page w)) as Ht.
  destruct (getFeatureEnabled this (Dom.r_page w)) as [enabled p1].
  cbn [fst snd] in *. destruct enabled; act.
  { intros _. destruct (Ht eq_refl) as (-> & Ha & Hi). split; [by left|done]. }
  rewrite Hd. fold d.
  destruct (List.find (isThinkButton d) (buttons d)) as [tb|]; act; [|done].
  destruct (isPressed d tb) eqn:Hp; act.
  - pose proof (setFeatureEnabled_true_stored this p1) as [Hd2 Hs].
    destruct (setFeatureEnabled this true p1) as [ok p2]. act.
    cbn [snd] in *. intros _. split; [|done].
    right. exists tb. split; [done|]. by rewrite Hd2, Hd.
  - rewrite simulateClick_some. act.
    match goal with |- context [isPressed (dom ?q) tb] =>
      set (p3 := q); destruct (isPressed (dom p3) tb) eqn:Hp3 end; act; [|done].
    pose proof (setFeatureEnabled_true_stored this p3) as [Hd2 Hs].
    destruct (setFeatureEnabled this true p3) as [ok p4]. act.
    cbn [snd] in *. intros _. split; [|done].
    right. exists tb. split; [done|]. by rewrite Hd2.
Qed.

(** X17. [enableFeatures] of the ChatGPT handler dispatches no event and
    leaves the document as it is when the page is not valid, when there is
    no prompt editor, when the text of the editor is not empty once [trim]
    has removed the white space and line terminators of JavaScript at its
    ends (the no-break space and the other Unicode spaces among them), or
    when there is no tools button: it does not click while a prompt is
    being written. *)
Theorem chatGPT_no_click_when_blocked this w :
  let d := dom (Dom.r_page w) in
  isValidPage this (Dom.r_page w) = false \/
  promptEditor d = None \/
  (exists editor, promptEditor d = Some editor /\
                  Dom.trim (innerText editor d) <> []) \/
  toolsButton d = None ->
  Dom.r_events (snd (chatGPT_enableFeatures this w)) = Dom.r_events w /\
  dom (Dom.r_page (snd (chatGPT_enableFeatures this w))) = d.
Proof.
  intros d Hblocked. unfold Dom.chatGPT_enableFeatures. act. fold d.
  destruct (isCanvasAlreadyEnabled d); act.
  { pose proof (setFeatureEnabled_true_stored this (Dom.r_page w)) as [Hd _].
    by destruct (setFeatureEnabled this true (Dom.r_page w)). }
  unfold Dom.enableChatGPTCanvas. act.
  destruct (isValidPage this (Dom.r_page w)) eqn:Hvalid; cbn [negb]; act; [|done].
  pose proof (getFeatureEnabled_dom this (Dom.r_page w)) as Hd.
  destruct (getFeatureEnabled this (Dom.r_page w)) as [enabled p1].
  cbn [snd] in Hd. act. rewrite Hd. fold d.
  destruct (enabled && isCanvasAlreadyEnabled d); act; [done|].
  destruct (promptEditor d) as [editor|] eqn:He; act; [|done].
  destruct (Dom.trim (innerText editor d)) as [|u text] eqn:Ht;
    cbn [Dom.isEmptyString negb]; act; [|done].
  destruct (toolsButton d) as [tools|] eqn:Htools; act; [|done].
  exfalso. destruct Hblocked as [H|[H|[(e & H1 & H2)|H]]]; try done.
  congruence.
Qed.


(** X19. When [enableFeatures] of the ChatGPT handler returns true, the
    document it leaves holds a canvas mention, and a storage that can be read
    and written holds "true" under the handler's key. *)
Theorem chatGPT_true this w :
  let res := chatGPT_enableFeatures this w in
  fst res = true ->
  isCanvasAlreadyEnabled (dom (Dom.r_page (snd res))) = true /\
  (accessible (localStorage (Dom.r_page (snd res))) = true ->
   writable (localStorage (Dom.r_page (snd res))) = true ->
   items (localStorage (Dom.r_page (snd res))) !! storageKey (config this)
     = Some "true").
Proof.
  intros res. subst res. unfold Dom.chatGPT_enableFeatures. act.
  set (d := dom (Dom.r_page w)).
  destruct (isCanvasAlreadyEnabled d) eqn:Hc; act.
  { pose proof (setFeatureEnabled_true_stored this (Dom.r_page w)) as [Hd Hs].
    destruct (setFeatureEnabled this true (Dom.r_page w)) as [ok p1]. act.
    cbn [snd] in *. intros _. rewrite Hd. done. }
  unfold Dom.enableChatGPTCanvas. act.
  destruct (isValidPage this (Dom.r_page w)); cbn [negb]; act; [|done].
  pose proof (getFeatureEnabled_dom this (Dom.r_page w)) as Hd.
  destruct (getFeatureEnabled this (Dom.r_page w)) as [enabled p1].
  cbn [snd] in Hd. act. rewrite Hd. fold d. rewrite Hc, andb_false_r. act.
  destruct (promptEditor d) as [editor|]; act; [|done].
  destruct (Dom.isEmptyString (Dom.trim (innerText editor d))); cbn [negb]; act;
    [|done].
  destruct (toolsButton d) as [tools|]; act; [|done].
  rewrite simulateClick_some. act.
  match goal with |- context [List.find ?f ?l] => destruct (List.find f l) as [cb|] end;
    act.
  - rewrite simulateClick_some. act.
    match goal with |- context [isCanvasAlreadyEnabled (dom ?q)] =>
      set (p3 := q); destruct (isCanvasAlreadyEnabled (dom p3)) eqn:Hc3 end;
      act; [|done].
    pose proof (setFeatureEnabled_true_stored this p3) as [Hd3 Hs].
    destruct (setFeatureEnabled this true p3) as [ok p4]. act.
    cbn [snd] in *. intros _. rewrite Hd3. done.
  - match goal with |- context [body ?d1] => destruct (body d1) as [o|] end; act.
    + rewrite simulateClick_some. by act.
    + done.
Qed.

(** X20. The scripts of the Grok and ChatGPT handlers register the
    handler, which inherits [initialize], and start it exactly on its own
    pages: the Grok script tests the
    hostname only and the ChatGPT script the page as well, and both come to
    [initialize] when [isCurrentWebsite] holds and leave the runtime as it is
    otherwise. *)
Theorem scripts_start_on_own_pages (handlers : list (HandlerObject D))
    (rt : Runtime D) :
  let grok := Dom.GrokHandler react elapse buttons spanText getAttribute in
  let chatGPT :=
    Dom.ChatGPTHandler react elapse buttons textContent innerText
      canvasMentions promptEditor toolsButton body in
  Dom.grokScript react elapse buttons spanText getAttribute handlers rt =
    (handlers ++ [inheriting grok],
     if isCurrentWebsite grok (rt_page rt) then snd (initialize grok rt) else rt) /\
  Dom.chatGPTScript react elapse buttons textContent innerText
      canvasMentions promptEditor toolsButton body handlers rt =
    (handlers ++ [inheriting chatGPT],
     if isCurrentWebsite chatGPT (rt_page rt)
     then snd (initialize chatGPT rt) else rt).
Proof.
  intros grok chatGPT. split.
  - unfold Dom.grokScript. fold grok.
    assert (isCurrentWebsite grok (rt_page rt) =
            includes (loc_hostname (rt_page rt)) "grok.com"
            && isValidPage grok (rt_page rt)) as Hcur by reflexivity.
    destruct (includes (loc_hostname (rt_page rt)) "grok.com") eqn:Hhost.
    + cbn [andb] in Hcur. rewrite Hcur.
      destruct (isValidPage grok (rt_page rt)) eqn:Hv; [done|].
      unfold initialize. rewrite Hcur. done.
    + by rewrite Hcur.
  - unfold Dom.chatGPTScript. fold chatGPT.
    assert (isCurrentWebsite chatGPT (rt_page rt) =
            includes (loc_hostname (rt_page rt)) "chatgpt.com"
            && isValidPage chatGPT (rt_page rt)) as Hcur by reflexivity.
    rewrite Hcur.
    by destruct (includes (loc_hostname (rt_page rt)) "chatgpt.com"
                 && isValidPage chatGPT (rt_page rt)).
Qed.

End DocumentFacts.

(** ** The registry of [logic.js] *)

Lemma endsWith_spec (suf : string) : forall s,
  endsWith s suf = true <-> exists pre, s = pre +:+ suf.
Proof.
  induction s as [|c s IH]; cbn [endsWith]; rewrite orb_true_iff, String.eqb_eq.
  - split.
    + intros [<-|H]; [by exists ""|done].
    + intros [pre H]. left. destruct pre; ssimpl; [done|discriminate H].
  - rewrite IH. split.
    + intros [<-|[pre ->]]; [by exists ""|]. by exists (String c pre).
    + intros [pre H]. destruct pre as [|c' pre]; ssimpl.
      * by left.
      * right. exists pre. congruence.
Qed.

Lemma substring_all (s : string) : substring 0 (String.length s) s = s.
Proof. induction s as [|c s IH]; cbn; [done|]. by rewrite IH. Qed.

Module MoreLogic.
Import Logic.

Lemma withoutWww_www (domain : string) : withoutWww ("www." +:+ domain) = domain.
Proof.
  unfold withoutWww.
  assert (String.prefix "www." ("www." +:+ domain) = true) as ->.
  { apply prefix_spec. by exists domain. }
  change ("www." +:+ domain) with (String "w" (String "w" (String "w" (String "." domain)))).
  cbn [String.length]. replace (S (S (S (S (String.length domain)))) - 4)
    with (String.length domain) by lia.
  cbn [substring]. apply substring_all.
Qed.

Lemma map_get_Some key m h : map_get key m = Some h -> (key, h) ∈ m.
Proof.
  induction m as [|[k v] m IH]; cbn [map_get]; [done|].
  destruct (String.eqb_spec key k) as [->|Hne].
  - intros [= ->]. apply list_elem_of_here.
  - intros H. apply list_elem_of_further. by apply IH.
Qed.

Lemma map_get_None key m : map_get key m = None -> forall h, (key, h) ∉ m.
Proof.
  induction m as [|[k v] m IH]; cbn [map_get]; intros Hg h Hin.
  - by apply not_elem_of_nil in Hin.
  - destruct (String.eqb_spec key k) as [->|Hne]; [done|].
    apply elem_of_cons in Hin as [[= -> ->]|Hin]; [done|].
    by apply (IH Hg h).
Qed.

Lemma map_get_set_eq key v m : map_get key (map_set key v m) = Some v.
Proof.
  induction m as [|[k v'] m IH]; cbn [map_set map_get].
  - by rewrite String.eqb_refl.
  - destruct (String.eqb_spec key k) as [->|Hne]; cbn [map_get].
    + by rewrite String.eqb_refl.
    + apply String.eqb_neq in Hne. by rewrite Hne.
Qed.

Lemma map_get_set_ne key key' v m :
  key <> key' -> map_get key (map_set key' v m) = map_get key m.
Proof.
  intros Hne. induction m as [|[k v'] m IH]; cbn [map_set map_get].
  - apply String.eqb_neq in Hne. by rewrite Hne.
  - destruct (String.eqb_spec key' k) as [->|Hne']; cbn [map_get].
    + apply String.eqb_neq in Hne. by rewrite Hne.
    + by rewrite IH.
Qed.

Lemma subdomain_match_Some hostname m h :
  subdomain_match hostname m = Some h ->
  exists domain, (domain, h) ∈ m /\
    (hostname = domain \/ exists pre, hostname = pre +:+ "." +:+ domain).
Proof.
  induction m as [|[k v] m IH]; cbn [subdomain_match]; [done|].
  destruct (endsWith hostname ("." +:+ k) || String.eqb hostname k) eqn:Hfit.
  - intros [= ->]. exists k. split; [apply list_elem_of_here|].
    apply orb_true_iff in Hfit as [He|He].
    + right. by apply endsWith_spec.
    + left. by apply String.eqb_eq.
  - intros H. destruct (IH H) as (d & Hd & Hm). exists d.
    split; [by apply list_elem_of_further|done].
Qed.

Lemma subdomain_match_None hostname m :
  subdomain_match hostname m = None ->
  forall domain h, (domain, h) ∈ m ->
    hostname <> domain /\ forall pre, hostname <> pre +:+ "." +:+ domain.
Proof.
  induction m as [|[k v] m IH]; cbn [subdomain_match]; intros Hm domain h Hin.
  - by apply not_elem_of_nil in Hin.
  - destruct (endsWith hostname ("." +:+ k) || String.eqb hostname k) eqn:Hfit;
      [done|].
    apply elem_of_cons in Hin as [[= -> ->]|Hin]; [|by eapply IH].
    apply orb_false_iff in Hfit as [He Hq]. split.
    + by apply String.eqb_neq.
    + intros pre Hpre.
      assert (endsWith hostname ("." +:+ k) = true) as Ht; [|congruence].
      apply endsWith_spec. by exists pre.
Qed.

(** X21. The handler [getHandlerForCurrentPage] returns is registered under
    a domain that is the hostname, the hostname without a leading "www.", or
    a domain the hostname is a subdomain of. It returns nothing only when
    no registered domain is the hostname or has the hostname as a
    subdomain. *)
Theorem getHandlerForCurrentPage_finds hostname st :
  match getHandlerForCurrentPage hostname st with
  | Some h =>
      exists domain, (domain, h) ∈ platformHandlers st /\
        (hostname = domain \/ withoutWww hostname = domain \/
         exists pre, hostname = pre +:+ "." +:+ domain)
  | None =>
      forall domain h, (domain, h) ∈ platformHandlers st ->
        hostname <> domain /\ withoutWww hostname <> domain /\
        forall pre, hostname <> pre +:+ "." +:+ domain
  end.
Proof.
  unfold getHandlerForCurrentPage.
  destruct (map_get hostname (platformHandlers st)) as [h1|] eqn:H1.
  { exists hostname. split; [by apply map_get_Some|by left]. }
  destruct (map_get (withoutWww hostname) (platformHandlers st)) as [h2|] eqn:H2.
  { exists (withoutWww hostname). split; [by apply map_get_Some|by right; left]. }
  destruct (subdomain_match hostname (platformHandlers st)) as [h3|] eqn:H3.
  - destruct (subdomain_match_Some _ _ _ H3) as (d & Hd & [He|Hs]).
    + exists d. split; [done|by left].
    + exists d. split; [done|by right; right].
  - intros domain h Hin.
    destruct (subdomain_match_None _ _ H3 domain h Hin) as [Hn Hp].
    split; [done|split; [|done]].
    intros Hw. subst domain. by apply (map_get_None _ _ H2 h).
Qed.

(** X22. After [registerPlatformHandler(domain, handler)] the handler is
    the one found for the domain as hostname, whatever was registered before,
    and for "www." followed by the domain unless that hostname has an entry
    of its own. *)
Theorem registerPlatformHandler_found (domain : string) (h : nat) st :
  let st' := registerPlatformHandler domain h st in
  getHandlerForCurrentPage domain st' = Some h /\
  (map_get ("www." +:+ domain) (platformHandlers st) = None ->
   getHandlerForCurrentPage ("www." +:+ domain) st' = Some h).
Proof.
  intros st'. subst st'. unfold getHandlerForCurrentPage, registerPlatformHandler.
  cbn [platformHandlers]. split.
  - by rewrite map_get_set_eq.
  - intros Hnone.
    assert ("www." +:+ domain <> domain) as Hne.
    { intros Heq. apply (f_equal String.length) in Heq.
      change ("www." +:+ domain)
        with (String "w" (String "w" (String "w" (String "." domain)))) in Heq.
      cbn [String.length] in Heq. lia. }
    rewrite map_get_set_ne, Hnone by done.
    by rewrite withoutWww_www, map_get_set_eq.
Qed.

(** X23. [init] runs [enableFeatures] once: a second [init] on the same
    handler changes no flag and calls nothing, until [cleanup] has reset the
    handler, after which [init] runs [enableFeatures] again. *)
Theorem init_runs_once (r : nat) st :
  is_Some (heap st !! r) ->
  let st1 := init r st in
  active st1 r /\
  heap (init r st1) = heap st1 /\
  calls (init r st1) = calls st1 ++ [CallInit r] /\
  calls (init r (cleanup r st1)) =
    calls st1 ++ [CallCleanup r; CallInit r; CallEnableFeatures r].
Proof.
  intros [o Ho] st1.
  assert (active st1 r) as Hact.
  { unfold st1, active, init. cbn. rewrite Ho.
    destruct (initialized o) eqn:Hi; cbn.
    - by exists o.
    - rewrite lookup_alter_eq, Ho. cbn. by eexists. }
  split; [done|].
  destruct Hact as (o1 & Ho1 & Hi1).
  split; [|split].
  - unfold init at 1. cbn. by rewrite Ho1, Hi1.
  - unfold init at 1. cbn. by rewrite Ho1, Hi1.
  - destruct (LogicFacts.init_inactive (cleanup r st1) r) as (_ & Hc & _).
    + unfold cleanup. cbn. rewrite lookup_alter_eq, Ho1. by eexists.
    + apply LogicFacts.not_active_cleanup.
    + rewrite Hc. unfold cleanup. cbn. by rewrite <- app_assoc.
Qed.

(** X24. [handleUrlChange] switches nothing when the URL is the one last
    seen, when no handler is found for the page, or when the handler found
    is the current one: no flag changes and neither [cleanup] nor [init]
    is called, so a handler is not started again by a navigation inside its
    site, and the previous handler stays current on a page without a
    handler. *)
Theorem handleUrlChange_no_switch loc st :
  href loc = currentUrl st \/
  getHandlerForCurrentPage (hostname loc) st = None \/
  getHandlerForCurrentPage (hostname loc) st = currentHandler st ->
  let st' := handleUrlChange loc st in
  heap st' = heap st /\
  calls st' = calls st /\
  currentHandler st' = currentHandler st /\
  currentUrl st' = href loc.
Proof.
  intros Hcase st'. subst st'. unfold handleUrlChange.
  destruct (String.eqb_spec (href loc) (currentUrl st)) as [Heq|Hne];
    cbn [negb]; [done|].
  change (getHandlerForCurrentPage (hostname loc) (set_currentUrl (href loc) st))
    with (getHandlerForCurrentPage (hostname loc) st).
  destruct Hcase as [H|[H|H]]; [done| |].
  - by rewrite H.
  - destruct (getHandlerForCurrentPage (hostname loc) st) as [h|]; [|done].
    cbn [set_currentUrl currentHandler]. rewrite <- H.
    by rewrite bool_decide_eq_true_2.
Qed.

End MoreLogic.

(** ** The utilities of [logic.js] *)

Module MoreLogicUtil.
Import LogicUtil.

Section ClickElementFacts.
Context {St El : Type}.
Variable querySelector : string -> St -> option El.
Variable click : El -> St -> completion unit * St.
Variable elapse : Z -> St -> St.

#[local] Abbreviation clickLoop := (clickLoop querySelector click elapse).
#[local] Abbreviation clickElement := (clickElement querySelector click elapse).

Lemma queries_app (t1 t2 : list (@cevent El)) :
  queries (t1 ++ t2) = queries t1 + queries t2.
Proof. unfold queries. by rewrite List.filter_app, length_app. Qed.

Lemma clicks_app (t1 t2 : list (@cevent El)) :
  clicks (t1 ++ t2) = clicks t1 + clicks t2.
Proof. unfold clicks. by rewrite List.filter_app, length_app. Qed.

Lemma waited_app (t1 t2 : list (@cevent El)) :
  waited (t1 ++ t2) = (waited t1 + waited t2)%Z.
Proof.
  unfold waited. induction t1 as [|e t1 IH]; cbn [fold_right app]; [done|].
  rewrite IH. lia.
Qed.

Lemma clickLoop_rounds (selector : string) (n : nat) : forall i w,
  exists evs,
    c_trace (snd (clickLoop selector n i w)) = c_trace w ++ evs /\
    queries evs <= n /\
    clicks evs <= queries evs /\
    (fst (clickLoop selector n i w) = false ->
       queries evs = n /\ waited evs = (500 * Z.of_nat n)%Z) /\
    (fst (clickLoop selector n i w) = true ->
       1 <= queries evs /\
       waited evs = (500 * (Z.of_nat (queries evs) - 1))%Z /\
       exists pre element, evs = pre ++ [CClick element]).
Proof.
  induction n as [|n IH]; intros i w; cbn [clickLoop].
  - exists []. rewrite app_nil_r. repeat split; try done; cbn; lia.
  - change (c_page (cemit (CQuery selector) w)) with (c_page w).
    destruct (querySelector selector (c_page w)) as [element|].
    + destruct (click element (c_page w)) as [r s]. destruct r as [[]|e].
      * exists [CQuery selector; CClick element]. cbn [fst snd].
        unfold cemit. cbn [c_trace c_page]. rewrite <- app_assoc.
        change (queries [CQuery selector; CClick element]) with 1.
        change (clicks [CQuery selector; CClick element]) with 1.
        change (waited [CQuery selector; CClick element]) with 0%Z.
        split; [done|split; [lia|split; [lia|split; [done|]]]].
        intros _. split; [lia|split; [lia|]].
        by exists [CQuery selector], element.
      * match goal with |- context [clickLoop selector n (S i) ?w0] =>
          set (wk := w0) end.
        assert (c_trace wk = c_trace w
                  ++ [CQuery selector; CClick element; CWarn (i + 1) e; CWait 500])
          as Hwk.
        { unfold wk, cwait, cemit. cbn [c_trace c_page]. by rewrite <- !app_assoc. }
        destruct (IH (S i) wk) as (evs & Ht & Hq & Hc & Hf & Hs).
        exists ([CQuery selector; CClick element; CWarn (i + 1) e; CWait 500] ++ evs).
        rewrite Ht, Hwk, <- app_assoc. split; [done|].
        rewrite !queries_app, !clicks_app, !waited_app.
        change (queries [CQuery selector; CClick element; CWarn (i + 1) e; CWait 500])
          with 1.
        change (clicks [CQuery selector; CClick element; CWarn (i + 1) e; CWait 500])
          with 1.
        change (waited [CQuery selector; CClick element; CWarn (i + 1) e; CWait 500])
          with 500%Z.
        split; [lia|split; [lia|split]].
        -- intros Hfalse. destruct (Hf Hfalse). lia.
        -- intros Htrue. destruct (Hs Htrue) as (H1 & H2 & pre & el & ->).
           split; [lia|split; [lia|]].
           exists ([CQuery selector; CClick element; CWarn (i + 1) e; CWait 500] ++ pre), el.
           by rewrite <- app_assoc.
    + match goal with |- context [clickLoop selector n (S i) ?w0] =>
        set (wk := w0) end.
      assert (c_trace wk = c_trace w ++ [CQuery selector; CWait 500]) as Hwk.
      { unfold wk, cwait, cemit. cbn [c_trace c_page]. by rewrite <- !app_assoc. }
      destruct (IH (S i) wk) as (evs & Ht & Hq & Hc & Hf & Hs).
      exists ([CQuery selector; CWait 500] ++ evs).
      rewrite Ht, Hwk, <- app_assoc. split; [done|].
      rewrite !queries_app, !clicks_app, !waited_app.
      change (queries [CQuery selector; CWait 500]) with 1.
      change (clicks [CQuery selector; CWait 500]) with 0.
      change (waited [CQuery selector; CWait 500]) with 500%Z.
      split; [lia|split; [lia|split]].
      * intros Hfalse. destruct (Hf Hfalse). lia.
      * intros Htrue. destruct (Hs Htrue) as (H1 & H2 & pre & el & ->).
        split; [lia|split; [lia|]].
        exists ([CQuery selector; CWait 500] ++ pre), el.
        by rewrite <- app_assoc.
Qed.


End ClickElementFacts.

(** X26. [detectPlatform] returns the first entry of the table whose
    domain is the hostname without a leading "www." or has it as a
    subdomain, and nothing when no entry is. Each of the seven supported
    domains is detected as itself, with and without "www.". *)
Theorem detectPlatform_first_fit (table : list (string * PlatformInfo))
    (location_hostname : string) :
  let hostname := Logic.withoutWww location_hostname in
  match detectPlatformIn table location_hostname with
  | Some (domain, info) =>
      exists before after,
        table = before ++ (domain, info) :: after /\
        (hostname = domain \/ exists pre, hostname = pre +:+ "." +:+ domain) /\
        Forall (fun entry => hostname <> fst entry /\
                             forall pre, hostname <> pre +:+ "." +:+ fst entry)
               before
  | None =>
      Forall (fun entry => hostname <> fst entry /\
                           forall pre, hostname <> pre +:+ "." +:+ fst entry)
             table
  end /\
  Forall (fun entry => detectPlatform (fst entry) = Some entry /\
                       detectPlatform ("www." +:+ fst entry) = Some entry)
         SUPPORTED_PLATFORMS.
Proof.
  intros hostname. split.
  - unfold detectPlatformIn. fold hostname.
    assert (forall entry, platform_fits hostname entry = false ->
              hostname <> fst entry /\
              forall pre, hostname <> pre +:+ "." +:+ fst entry) as Hno.
    { intros entry Hf. unfold platform_fits in Hf.
      apply orb_false_iff in Hf as [He Hs]. split.
      - by apply String.eqb_neq.
      - intros pre Hpre.
        assert (endsWith hostname ("." +:+ fst entry) = true) as Ht; [|congruence].
        apply endsWith_spec. by exists pre. }
    induction table as [|entry table IH]; cbn [List.find]; [done|].
    destruct (platform_fits hostname entry) eqn:Hfit.
    + destruct entry as [domain info]. exists [], table. split; [done|].
      split; [|done]. unfold platform_fits in Hfit. cbn [fst] in Hfit.
      apply orb_true_iff in Hfit as [He|Hs].
      * left. by apply String.eqb_eq.
      * right. by apply endsWith_spec.
    + destruct (List.find (platform_fits hostname) table) as [[domain info]|].
      * destruct IH as (before & after & -> & Hfits & Hall).
        exists (entry :: before), after. split; [done|split; [done|]].
        constructor; [by apply Hno|done].
      * constructor; [by apply Hno|done].
  - repeat constructor.
Qed.

End MoreLogicUtil.

(** ** The debounced mutation observer *)

Module ObserverFacts.
Import LogicUtil.

Section Facts.
Context {Batch : Type}.
Implicit Types (st : @ObserverState Batch) (m : Batch).

Lemma initialObserver_ok : observer_ok (@initialObserver Batch).
Proof.
  repeat split; try done. intros t [b Hb]. cbn in Hb.
  by rewrite lookup_empty in Hb.
Qed.

Lemma start_ok st : observer_ok st -> observer_ok (startMutationObserver st).
Proof.
  intros Hok. unfold startMutationObserver.
  destruct (mutationObserver st) as [o|] eqn:Hm; [done|].
  destruct Hok as (Ho & Hn & Ht & Hd). rewrite Hm in Ho.
  repeat split; cbn; try done.
  - by rewrite Ho.
  - intros o [= <-]. lia.
Qed.

Lemma stop_ok st : observer_ok st -> observer_ok (stopMutationObserver st).
Proof.
  intros Hok. unfold stopMutationObserver.
  destruct (mutationObserver st) as [o|] eqn:Hm; [|done].
  destruct Hok as (Ho & Hn & Ht & Hd). rewrite Hm in Ho.
  repeat split; cbn; try done.
  rewrite Ho. cbn. by rewrite Nat.eqb_refl.
Qed.

(** In a state the code keeps, the callback leaves one pending timeout:
    the new one. *)
Lemma observerCallback_timers m st :
  observer_ok st -> timers (observerCallback m st) = {[ nextTimer st := m ]}.
Proof.
  intros (_ & _ & Ht & Hd). unfold observerCallback. cbn.
  assert (clearTimeout (debounceTimer st) (timers st) = ∅) as ->; [|done].
  apply map_eq. intros t. rewrite lookup_empty.
  destruct (clearTimeout (debounceTimer st) (timers st) !! t) as [b|] eqn:Hb;
    [|done].
  exfalso. unfold clearTimeout in Hb.
  destruct (debounceTimer st) as [old|] eqn:Hold.
  - apply lookup_delete_Some in Hb as [Hne Hb].
    assert (Some old = Some t) as [= ->] by (apply Ht; by eexists). done.
  - assert (None = Some t) by (apply Ht; by eexists). done.
Qed.

Lemma observerCallback_ok m st :
  observer_ok st -> observer_ok (observerCallback m st).
Proof.
  intros Hok. pose proof (observerCallback_timers m st Hok) as Htm.
  destruct Hok as (Ho & Hn & Ht & Hd).
  repeat split; try done.
  - intros t [b Hb]. rewrite Htm in Hb.
    apply lookup_singleton_Some in Hb as [<- _]. done.
  - cbn. intros t [= <-]. lia.
Qed.

Lemma mutate_cases m st :
  observer_ok st ->
  mutate m st = match mutationObserver st with
                | Some _ => observerCallback m st
                | None => st
                end.
Proof.
  intros (Ho & _). unfold mutate. rewrite Ho.
  by destruct (mutationObserver st).
Qed.

Lemma mutate_ok m st : observer_ok st -> observer_ok (mutate m st).
Proof.
  intros Hok. rewrite mutate_cases by done.
  destruct (mutationObserver st); [by apply observerCallback_ok|done].
Qed.

Lemma fire_ok id hostname st :
  observer_ok st -> observer_ok (fireTimer id hostname st).
Proof.
  intros Hok. unfold fireTimer.
  destruct (timers st !! id) as [b|] eqn:Hb; [|done].
  destruct Hok as (Ho & Hn & Ht & Hd).
  repeat split; cbn; try done.
  intros t [b' Hb']. apply lookup_delete_Some in Hb' as [_ Hb'].
  apply Ht. by eexists.
Qed.

Lemma observerRuns_ok (es : list (@observerStep Batch)) : forall st,
  observer_ok st -> observer_ok (observerRuns es st).
Proof.
  unfold observerRuns. induction es as [|e es IH]; intros st Hok; [done|].
  cbn [fold_left]. apply IH. destruct e; cbn [observerRun].
  - by apply start_ok.
  - by apply stop_ok.
  - by apply mutate_ok.
  - by apply fire_ok.
Qed.

(** X27. Whatever the order in which the observer is started and stopped,
    the document changes and timeouts run, at most one observer is connected
    and at most one timeout is pending, and the pending timeout is the one
    [debounceTimer] names. *)
Theorem observer_single_timer (es : list (@observerStep Batch)) :
  let st := observerRuns es initialObserver in
  length (observing st) <= 1 /\
  (forall t1 t2, is_Some (timers st !! t1) -> is_Some (timers st !! t2) -> t1 = t2) /\
  (forall t, is_Some (timers st !! t) -> debounceTimer st = Some t).
Proof.
  intros st.
  destruct (observerRuns_ok es initialObserver initialObserver_ok)
    as (Ho & _ & Ht & _).
  fold st in Ho, Ht. split; [|split; [|done]].
  - rewrite Ho. destruct (mutationObserver st); cbn; lia.
  - intros t1 t2 H1%Ht H2%Ht. congruence.
Qed.

(** X28. The observer debounces: when the document changes while the
    observer is connected, the batch that was waiting is dropped and the new
    batch is the only one pending, so of the batches that arrive before the
    timeout runs only the last reaches the handler lookup. *)
Theorem observer_keeps_last_batch (es : list (@observerStep Batch)) m
    (id : nat) (hostname : string) :
  let st := observerRuns es initialObserver in
  is_Some (mutationObserver st) ->
  timers (mutate m st) = {[ nextTimer st := m ]} /\
  delivered (mutate m st) = delivered st /\
  delivered (fireTimer id hostname (mutate m st)) =
    (if decide (id = nextTimer st)
     then delivered st ++ [(hostname, m)]
     else delivered st).
Proof.
  intros st [o Hobs].
  pose proof (observerRuns_ok es initialObserver initialObserver_ok) as Hok.
  fold st in Hok. rewrite mutate_cases by done. rewrite Hobs.
  pose proof (observerCallback_timers m st Hok) as Htm.
  split; [done|split; [done|]].
  unfold fireTimer. rewrite Htm.
  destruct (decide (id = nextTimer st)) as [->|Hne].
  - by rewrite lookup_singleton_eq.
  - by rewrite lookup_singleton_ne.
Qed.

(** X29. [stopMutationObserver] disconnects the observer and does not
    clear the timeout: later changes of the document set no new timeout, and
    a batch that was pending is still handed to the handler lookup when its
    timeout runs. *)
Theorem stop_keeps_pending_timeout (es : list (@observerStep Batch)) m
    (t : nat) (hostname : string) m' :
  let st := observerRuns es initialObserver in
  timers st !! t = Some m ->
  mutate m' (stopMutationObserver st) = stopMutationObserver st /\
  delivered (fireTimer t hostname (stopMutationObserver st)) =
    delivered st ++ [(hostname, m)].
Proof.
  intros st Hpending.
  pose proof (observerRuns_ok es initialObserver initialObserver_ok) as Hok.
  fold st in Hok. pose proof (stop_ok st Hok) as Hok'.
  split.
  - rewrite mutate_cases by done. unfold stopMutationObserver.
    destruct (mutationObserver st) eqn:Hm; cbn; [done|by rewrite Hm].
  - unfold fireTimer.
    assert (timers (stopMutationObserver st) = timers st /\
            delivered (stopMutationObserver st) = delivered st) as [-> Hd].
    { unfold stopMutationObserver. by destruct (mutationObserver st). }
    rewrite Hpending. cbn. by rewrite Hd.
Qed.

End Facts.

End ObserverFacts.

(** ** The further properties on concrete inputs *)

Lemma tryWithDelays_true_iff_witness :
  fst (tryWithDelays still succeedsThird delays (Some untilTwo) start) = Normal true.
Proof.
  apply (proj1 (tryWithDelays_true_iff still succeedsThird delays
                  (Some untilTwo) start
                  (ex_intro _ (JBool true) (conj eq_refl eq_refl)))).
  exists 2, (Normal (JBool true)). split; reflexivity.
Defined.

Lemma setStorageItem_other_key_witness :
  fst (getStorageItem flagKey false (snd (setStorageItem "other-key" false navigated)))
  = fst (getStorageItem flagKey false navigated).
Proof.
  apply (setStorageItem_other_key "other-key" flagKey false false navigated).
  discriminate.
Defined.

Lemma setFeatureEnabled_then_get_witness :
  fst (getFeatureEnabled grokHandler (snd (setFeatureEnabled grokHandler true reloaded)))
  = false /\
  fst (getFeatureEnabled grokHandler (snd (setFeatureEnabled grokHandler true navigated)))
  = true.
Proof.
  split.
  - apply (proj1 (setFeatureEnabled_then_get grokHandler true reloaded eq_refl)).
  - apply (proj1 (setFeatureEnabled_then_get grokHandler true navigated eq_refl)).
Defined.

Lemma base_handler_never_enabled_witness :
  fst (run_task (fun _ p => p) (runWithDelays_task grokHandler) (World navigated []))
  = Normal false.
Proof.
  apply (proj1 (base_handler_never_enabled (fun _ p => p) grokHandler
                  (World navigated []) eq_refl)).
Defined.

Lemma initialize_clears_flag_witness :
  fst (getFeatureEnabled grokHandler
         (rt_page (snd (initialize grokHandler (runtimeOf navigated))))) = false.
Proof.
  apply (initialize_clears_flag grokHandler (runtimeOf navigated)); reflexivity.
Defined.

Lemma no_patterns_never_initializes_witness :
  let h := {| config := constructor {| arg_hostname := Some "grok.com";
                                       arg_storageKey := Some flagKey;
                                       arg_urlPatterns := None;
                                       arg_defaultDelays := None |};
              enableFeatures := enableFeatures_base |} in
  initialize h (runtimeOf navigated) = (false, runtimeOf navigated).
Proof.
  apply (no_patterns_never_initializes
           {| arg_hostname := Some "grok.com"; arg_storageKey := Some flagKey;
              arg_urlPatterns := None; arg_defaultDelays := None |}
           enableFeatures_base (runtimeOf navigated)).
  left. reflexivity.
Defined.

Lemma initialize_twice_starts_twice_witness :
  length (schedulerCalls
            (snd (initialize grokHandler
                    (snd (initialize grokHandler (runtimeOf navigated)))))) = 2.
Proof.
  rewrite (proj2 (initialize_twice_starts_twice grokHandler (runtimeOf navigated)
                    eq_refl eq_refl)).
  reflexivity.
Defined.

Lemma initializeHandlers_clears_flags_witness :
  fst (getFeatureEnabled grokHandler navigated) = true /\
  fst (getFeatureEnabled grokHandler
         (rt_page (c_runtime (snd (initializeHandlers HandlersSample.registered
                                     (HandlersSample.contentOf navigated))))))
  = false /\
  fst (getFeatureEnabled HandlersSample.studioBase HandlersSample.onStudio) = true /\
  fst (getFeatureEnabled HandlersSample.studioBase
         (rt_page (c_runtime (snd (initializeHandlers HandlersSample.aroundStudio
                                     (HandlersSample.contentOf HandlersSample.onStudio))))))
  = false.
Proof.
  split; [reflexivity|]. split.
  - apply (initializeHandlers_clears_flags
             [inheriting HandlersSample.chatGPTHandler]
             (inheriting grokHandler)
             [HandlersSample.googleAIStudioHandler; inheriting specHandler]
             (HandlersSample.contentOf navigated)).
    + constructor; [intros _; reflexivity|constructor].
    + reflexivity.
    + reflexivity.
    + reflexivity.
  - split; [reflexivity|].
    apply (initializeHandlers_clears_flags
             [inheriting grokHandler]
             HandlersSample.studioPlain
             [HandlersSample.googleAIStudioHandler; HandlersSample.studioPlain]
             (HandlersSample.contentOf HandlersSample.onStudio)).
    + constructor; [intros _; reflexivity|constructor].
    + reflexivity.
    + reflexivity.
    + reflexivity.
Defined.

Lemma toggleGrokThinking_trusts_flag_witness :
  Dom.toggleGrokThinking DomSample.react DomSample.elapse DomSample.buttons
    DomSample.spanText DomSample.getAttribute DomSample.grokBase
    (Dom.Run DomSample.grokFlagged [])
  = (true, Dom.Run DomSample.grokFlagged []).
Proof.
  apply (toggleGrokThinking_trusts_flag DomSample.react DomSample.elapse
           DomSample.buttons DomSample.spanText DomSample.getAttribute
           DomSample.grokBase DomSample.grokFlagged []); reflexivity.
Defined.

Lemma toggleGrokThinking_true_witness :
  let res :=
    Dom.toggleGrokThinking DomSample.react DomSample.elapse DomSample.buttons
      DomSample.spanText DomSample.getAttribute DomSample.grokBase
      (DomSample.startOn DomSample.grokFresh) in
  Dom.r_events (snd res) = Dom.click_events 1 /\
  items (localStorage (Dom.r_page (snd res))) !! "grok-thinking-enabled"
    = Some "true".
Proof.
  split; [reflexivity|].
  apply (proj2 (toggleGrokThinking_true DomSample.react DomSample.elapse
                  DomSample.buttons DomSample.spanText DomSample.getAttribute
                  DomSample.grokBase (DomSample.startOn DomSample.grokFresh)
                  eq_refl)); reflexivity.
Defined.

Lemma chatGPT_no_click_when_blocked_witness :
  Dom.r_events
    (snd (Dom.chatGPT_enableFeatures DomSample.react DomSample.elapse
            DomSample.buttons DomSample.textContent DomSample.innerText
            DomSample.canvasMentions DomSample.promptEditor
            DomSample.toolsButton DomSample.body DomSample.chatGPTBase
            (DomSample.startOn DomSample.chatWriting))) = [].
Proof.
  apply (chatGPT_no_click_when_blocked DomSample.react DomSample.elapse
           DomSample.buttons DomSample.textContent DomSample.innerText
           DomSample.canvasMentions DomSample.promptEditor
           DomSample.toolsButton DomSample.body DomSample.chatGPTBase
           (DomSample.startOn DomSample.chatWriting)).
  right. right. left. exists DomSample.editorEl. split; [reflexivity|].
  intros H. vm_compute in H. discriminate H.
Defined.

(** An editor that holds Unicode white space only counts as empty: the
    handler goes on, clicks the tools button and, finding no Canvas entry,
    clicks the body. *)
Lemma chatGPT_clicks_on_blank_editor :
  Dom.trim (DomSample.innerText DomSample.editorEl DomSample.blank) = [] /\
  Dom.r_events
    (snd (Dom.chatGPT_enableFeatures DomSample.react DomSample.elapse
            DomSample.buttons DomSample.textContent DomSample.innerText
            DomSample.canvasMentions DomSample.promptEditor
            DomSample.toolsButton DomSample.body DomSample.chatGPTBase
            (DomSample.startOn DomSample.chatBlank)))
  = Dom.click_events DomSample.toolsEl ++ Dom.click_events DomSample.bodyEl.
Proof. split; reflexivity. Qed.

Lemma chatGPT_true_witness :
  let res :=
    Dom.chatGPT_enableFeatures DomSample.react DomSample.elapse
      DomSample.buttons DomSample.textContent DomSample.innerText
      DomSample.canvasMentions DomSample.promptEditor
      DomSample.toolsButton DomSample.body DomSample.chatGPTBase
      (DomSample.startOn DomSample.chatCanvasOn) in
  items (localStorage (Dom.r_page (snd res))) !! "chatgpt-canvas-enabled"
    = Some "true".
Proof.
  apply (proj2 (chatGPT_true DomSample.react DomSample.elapse
                  DomSample.buttons DomSample.textContent DomSample.innerText
                  DomSample.canvasMentions DomSample.promptEditor
                  DomSample.toolsButton DomSample.body DomSample.chatGPTBase
                  (DomSample.startOn DomSample.chatCanvasOn) eq_refl));
    reflexivity.
Defined.

Lemma init_runs_once_witness :
  Logic.calls (Logic.init grokRef (Logic.init grokRef onClaude))
  = [Logic.CallInit grokRef; Logic.CallEnableFeatures grokRef;
     Logic.CallInit grokRef].
Proof.
  destruct (MoreLogic.init_runs_once grokRef onClaude) as (_ & _ & Hc & _).
  - exists Logic.newHandler. reflexivity.
  - rewrite Hc. reflexivity.
Defined.

Lemma handleUrlChange_no_switch_witness :
  let loc := {| Logic.href := "https://claude.ai/chat/1";
                Logic.hostname := "claude.ai" |} in
  Logic.calls (Logic.handleUrlChange loc onClaude) = [] /\
  Logic.currentUrl (Logic.handleUrlChange loc onClaude) = "https://claude.ai/chat/1".
Proof.
  intros loc.
  destruct (MoreLogic.handleUrlChange_no_switch loc onClaude) as (_ & Hc & _ & Hu).
  - right. right. reflexivity.
  - split; [exact Hc|exact Hu].
Defined.

Lemma observer_keeps_last_batch_witness :
  let st := LogicUtil.observerRuns ObserverSample.twoBatches
              LogicUtil.initialObserver in
  LogicUtil.delivered (LogicUtil.fireTimer 2 "grok.com" (LogicUtil.mutate 3 st))
  = [("grok.com", 3)].
Proof.
  intros st. subst st.
  rewrite (proj2 (proj2 (ObserverFacts.observer_keeps_last_batch
                           ObserverSample.twoBatches 3 2 "grok.com"
                           (ex_intro _ 0 eq_refl)))).
  reflexivity.
Defined.

Lemma stop_keeps_pending_timeout_witness :
  let st := LogicUtil.observerRuns ObserverSample.twoBatches
              LogicUtil.initialObserver in
  LogicUtil.delivered
    (LogicUtil.fireTimer 1 "grok.com" (LogicUtil.stopMutationObserver st))
  = [("grok.com", 2)].
Proof.
  intros st. subst st.
  apply (proj2 (ObserverFacts.stop_keeps_pending_timeout
                  ObserverSample.twoBatches 2 1 "grok.com" 9 eq_refl)).
Defined.

Lemma getStorageItem_default_witness :
  fst (getStorageItem "missing-key" true navigated) = true.
Proof.
  apply (proj1 (proj2 (getStorageItem_default "missing-key" true navigated))).
  reflexivity.
Defined.

Lemma initializeHandlers_starts_matching_witness :
  let res := initializeHandlers HandlersSample.registered
               (HandlersSample.contentOf loading) in
  let res' := initializeHandlers HandlersSample.aroundStudio
                (HandlersSample.contentOf HandlersSample.onStudio) in
  fst res = Normal tt /\
  studioObservers (snd res) = 0 /\
  schedulerCalls (c_runtime (snd res)) = [] /\
  loadListeners (c_runtime (snd res))
    = [OnLoadRunWithDelays grokHandler; OnLoadRunWithDelays specHandler] /\
  schedulerCalls (dispatchLoad (c_runtime (snd res)))
    = [runWithDelays_task grokHandler; runWithDelays_task specHandler] /\
  fst res' = Throw (JStr "TypeError") /\
  studioObservers (snd res') = 1 /\
  schedulerCalls (c_runtime (snd res'))
    = [runWithDelays_task HandlersSample.studioBase].
Proof.
  intros res res'.
  destruct (initializeHandlers_starts_matching HandlersSample.registered
              (HandlersSample.contentOf loading))
    as (scanned & _ & Hshape & _ & Hloading).
  destruct (initializeHandlers_starts_matching HandlersSample.aroundStudio
              (HandlersSample.contentOf HandlersSample.onStudio))
    as (scanned' & Hall' & Hshape' & Hcomplete' & _).
  fold res in Hshape, Hloading. fold res' in Hshape', Hcomplete'.
  destruct Hloading as (Hcalls & Hlisteners & Hload); [discriminate|].
  specialize (Hcomplete' eq_refl) as [Hcalls' _].
  destruct Hshape as [(<- & Hend & Hobs)|(studio & after & Heq & Hcur & Hown & _)].
  - destruct Hshape' as [(<- & _)|(studio & after & Heq' & Hcur' & Hown' & Hend' & Hobs')].
    + exfalso. unfold HandlersSample.aroundStudio in Hall'.
      apply Forall_cons in Hall' as [_ Hall']. apply Forall_cons in Hall' as [_ Hall'].
      apply Forall_cons in Hall' as [Hstudio _].
      discriminate (Hstudio eq_refl).
    + split; [exact Hend|]. split; [exact Hobs|].
      split; [rewrite Hcalls; reflexivity|].
      split; [rewrite Hlisteners; reflexivity|].
      split; [rewrite Hload; reflexivity|].
      split; [exact Hend'|]. split; [exact Hobs'|].
      rewrite Hcalls'.
      assert (scanned' = [inheriting grokHandler; HandlersSample.studioPlain])
        as ->; [|reflexivity].
      unfold HandlersSample.aroundStudio in Heq'.
      destruct scanned' as [|a [|b [|c' [|d scanned']]]]; cbn [app] in Heq'.
      * injection Heq' as <- _. discriminate Hown'.
      * injection Heq' as _ <- _. discriminate Hown'.
      * by injection Heq' as <- <- _.
      * injection Heq' as _ _ <- _.
        apply Forall_cons in Hall' as [_ Hall']. apply Forall_cons in Hall' as [_ Hall'].
        apply Forall_cons in Hall' as [Hstudio _].
        discriminate (Hstudio eq_refl).
      * exfalso. injection Heq' as _ _ _ _ Hnil. by destruct scanned'.
  - exfalso.
    assert (In studio HandlersSample.registered) as Hin
      by (rewrite Heq; apply in_elt).
    unfold HandlersSample.registered in Hin.
    destruct Hin as [<-|[<-|[<-|[<-|[]]]]];
      first [discriminate Hown | vm_compute in Hcur; discriminate Hcur].
Defined.

Lemma registerPlatformHandler_found_witness :
  Logic.getHandlerForCurrentPage "www.chatgpt.com"
    (Logic.registerPlatformHandler "chatgpt.com" 2 onClaude) = Some 2.
Proof.
  apply (proj2 (MoreLogic.registerPlatformHandler_found "chatgpt.com" 2 onClaude)).
  reflexivity.
Defined.

